(** * do-spaces-export: resumable bucket export

    A shallow embedding of [do_spaces_export/export.py], [fetch.py] and
    [__init__.py], and the properties of the download ledger, the object
    lister, the directory materializer and the download orchestrator.

    Layout:
    - the Python values the program handles (exceptions, JSON documents,
      hashable set elements);
    - the local filesystem as a tree of directories and files, with the
      [os] calls the program makes;
    - the storage client, as the two calls the program issues;
    - the program, function by function, in a state-and-exception monad;
    - the properties. *)

From Stdlib Require Import ZArith Lia Ascii String.
From stdpp Require Import gmap strings list fin_maps.

#[local] Set Warnings "-register-all,-clear-no-such-hyp".
#[local] Open Scope Z_scope.

(** ** Exceptions

    [KeyboardInterrupt] derives from [BaseException] only, so an
    [except Exception] clause does not catch it; everything else below is an
    [Exception]. *)

Inductive exn :=
  | KeyboardInterrupt
  | FileNotFoundError
  | FileExistsError
  | NotADirectoryError
  | IsADirectoryError
  | JSONDecodeError
  | AttributeError
  | TypeError
  | IndexError
  | ClientError (code : string).

Definition is_Exception (e : exn) : bool :=
  match e with KeyboardInterrupt => false | _ => true end.

Definition is_KeyboardInterrupt (e : exn) : bool :=
  match e with KeyboardInterrupt => true | _ => false end.

Inductive result (A : Type) :=
  | Ok (a : A)
  | Raise (e : exn).
Arguments Ok {A} a.
Arguments Raise {A} e.

(** ** JSON documents and set elements *)

Inductive json :=
  | JNull
  | JBool (b : bool)
  | JNum (n : Z)
  | JStr (s : string)
  | JArr (items : list json)
  | JObj (members : list (string * json)).

(** What a file holds, as [json.load] sees it: [Json j] is text that parses
    to [j]; [Bytes d] is anything the parser rejects ([d] is never
    inspected, it only tells contents apart). *)
Inductive content :=
  | Bytes (data : string)
  | Json (j : json).

Definition json_load (c : content) : result json :=
  match c with
  | Json j => Ok j
  | Bytes _ => Raise JSONDecodeError
  end.

(** Elements of a Python set obtained from JSON: strings, numbers and
    [None]. Python's [==] and [hash] identify [True] with [1] and [False]
    with [0], so booleans are numbers here. *)
Inductive atom :=
  | AStr (s : string)
  | ANum (n : Z)
  | ANone.

#[global] Instance atom_eq_dec : EqDecision atom.
Proof. solve_decision. Defined.

#[global] Instance atom_countable : Countable atom.
Proof.
  refine (inj_countable'
    (λ a, match a with
          | AStr s => inl s
          | ANum n => inr (inl n)
          | ANone => inr (inr ())
          end)
    (λ x, match x with
          | inl s => AStr s
          | inr (inl n) => ANum n
          | inr (inr _) => ANone
          end) _).
  by intros [].
Defined.

(** [hash(x)] for a JSON value: lists and dicts are unhashable. *)
Definition py_hashable (j : json) : result atom :=
  match j with
  | JStr s => Ok (AStr s)
  | JNum n => Ok (ANum n)
  | JBool b => Ok (ANum (if b then 1 else 0))
  | JNull => Ok ANone
  | JArr _ | JObj _ => Raise TypeError
  end.

Fixpoint py_hashables (l : list json) : result (list atom) :=
  match l with
  | [] => Ok []
  | j :: l' =>
      match py_hashable j with
      | Raise e => Raise e
      | Ok a =>
          match py_hashables l' with
          | Raise e => Raise e
          | Ok as' => Ok (a :: as')
          end
      end
  end.

(** [set(x)]: iterates a list, the characters of a string or the keys of a
    dict; anything else is not iterable. *)
Definition py_set (j : json) : result (gset atom) :=
  match j with
  | JArr items =>
      match py_hashables items with
      | Ok l => Ok (list_to_set l)
      | Raise e => Raise e
      end
  | JStr s =>
      Ok (list_to_set ((λ c, AStr (String c "")) <$> list_ascii_of_string s))
  | JObj members => Ok (list_to_set ((λ kv, AStr kv.1) <$> members))
  | JNull | JBool _ | JNum _ => Raise TypeError
  end.

(** Member lookup in a parsed object: on a repeated name the last one
    wins, as in [json.load]. *)
Fixpoint members_get (k : string) (members : list (string * json)) : option json :=
  match members with
  | [] => None
  | (k', v) :: rest =>
      match members_get k rest with
      | Some v' => Some v'
      | None => if decide (k = k') then Some v else None
      end
  end.

(** [data.get(k, default)]: only a dict has [get]. *)
Definition py_get (data : json) (k : string) (default : json) : result json :=
  match data with
  | JObj members => Ok (from_option id default (members_get k members))
  | _ => Raise AttributeError
  end.

Definition json_of_atom (a : atom) : json :=
  match a with
  | AStr s => JStr s
  | ANum n => JNum n
  | ANone => JNull
  end.

(** ** Paths

    A path string is read as POSIX does: split at ["/"], empty segments
    dropped, a trailing ["/"] demanding a directory. The working directory
    is the root of the tree; [.] and [..] are ordinary names and there are
    no symbolic links. *)

Definition is_slash (c : ascii) : bool := bool_decide (c = "/"%char).

Fixpoint fields (s : string) : list string :=
  match s with
  | EmptyString => [EmptyString]
  | String c s' =>
      if is_slash c then EmptyString :: fields s'
      else match fields s' with
           | f :: fs => String c f :: fs
           | [] => [String c EmptyString]
           end
  end.

Definition nonempty (s : string) : bool :=
  match s with EmptyString => false | _ => true end.

Definition segments (s : string) : list string := List.filter nonempty (fields s).

(** [s[-1]] *)
Definition last_char (s : string) : result ascii :=
  match last (list_ascii_of_string s) with
  | Some c => Ok c
  | None => Raise IndexError
  end.

Definition trailing_slash (s : string) : bool :=
  match last (list_ascii_of_string s) with
  | Some c => is_slash c
  | None => false
  end.

(** [posixpath.dirname]: everything up to the last slash, with the slashes
    at its end stripped unless it consists of slashes only. *)
Fixpoint upto_last_slash (s : string) : string :=
  match s with
  | EmptyString => EmptyString
  | String c s' =>
      match upto_last_slash s' with
      | EmptyString => if is_slash c then String c EmptyString else EmptyString
      | h => String c h
      end
  end.

Fixpoint rstrip_slash (s : string) : string :=
  match s with
  | EmptyString => EmptyString
  | String c s' =>
      match rstrip_slash s' with
      | EmptyString => if is_slash c then EmptyString else String c EmptyString
      | r => String c r
      end
  end.

Definition os_path_dirname (p : string) : string :=
  let head := upto_last_slash p in
  if forallb is_slash (list_ascii_of_string head) then head else rstrip_slash head.

(** ** The filesystem tree *)

Inductive node :=
  | File (c : content)
  | Dir (entries : gmap string node).

Definition empty_dir : node := Dir ∅.

Fixpoint stat (n : node) (p : list string) : result node :=
  match p with
  | [] => Ok n
  | s :: p' =>
      match n with
      | File _ => Raise NotADirectoryError
      | Dir es =>
          match es !! s with
          | Some m => stat m p'
          | None => Raise FileNotFoundError
          end
      end
  end.

(** [os.makedirs(p, exist_ok=True)] on segments: missing directories are
    created on the way down; a file in the way is an error. *)
Fixpoint mkdirs (n : node) (p : list string) : result node :=
  match p with
  | [] =>
      match n with
      | Dir _ => Ok n
      | File _ => Raise FileExistsError
      end
  | s :: p' =>
      match n with
      | File _ => Raise NotADirectoryError
      | Dir es =>
          match mkdirs (default empty_dir (es !! s)) p' with
          | Ok m => Ok (Dir (<[s:=m]> es))
          | Raise e => Raise e
          end
      end
  end.

(** Replace, create or delete the entry at [p]: [f] sees the entry (or
    [None]) and answers with the new one ([None] to unlink it). Every
    directory above [p] must exist. *)
Fixpoint update (f : option node → result (option node)) (n : node) (p : list string)
    : result node :=
  match p with
  | [] => Raise IsADirectoryError
  | s :: p' =>
      match n with
      | File _ => Raise NotADirectoryError
      | Dir es =>
          match p' with
          | [] =>
              match f (es !! s) with
              | Ok (Some m) => Ok (Dir (<[s:=m]> es))
              | Ok None => Ok (Dir (delete s es))
              | Raise e => Raise e
              end
          | _ :: _ =>
              match es !! s with
              | None => Raise FileNotFoundError
              | Some m =>
                  match update f m p' with
                  | Ok m' => Ok (Dir (<[s:=m']> es))
                  | Raise e => Raise e
                  end
              end
          end
      end
  end.

Definition put_file (c : content) (e : option node) : result (option node) :=
  match e with
  | Some (Dir _) => Raise IsADirectoryError
  | Some (File _) | None => Ok (Some (File c))
  end.

Definition unlink (e : option node) : result (option node) :=
  match e with
  | Some (File _) => Ok None
  | Some (Dir _) => Raise IsADirectoryError
  | None => Raise FileNotFoundError
  end.

(** The [os] calls, on path strings. *)

Definition fs_lookup (root : node) (p : string) : result node :=
  if nonempty p then
    match stat root (segments p) with
    | Ok (File c) => if trailing_slash p then Raise NotADirectoryError else Ok (File c)
    | r => r
    end
  else Raise FileNotFoundError.

(** [os.path.exists]: any error means "no". *)
Definition fs_exists (root : node) (p : string) : bool :=
  match fs_lookup root p with Ok _ => true | Raise _ => false end.

Definition fs_makedirs (root : node) (p : string) : result node :=
  if nonempty p then mkdirs root (segments p) else Raise FileNotFoundError.

Definition fs_read (root : node) (p : string) : result content :=
  match fs_lookup root p with
  | Ok (File c) => Ok c
  | Ok (Dir _) => Raise IsADirectoryError
  | Raise e => Raise e
  end.

(** [open(p, "w")] / [open(p, "wb")] followed by writing [c]. *)
Definition fs_write (root : node) (p : string) (c : content) : result node :=
  if nonempty p then
    if trailing_slash p then
      match stat root (segments p) with
      | Ok (File _) => Raise NotADirectoryError
      | _ => Raise IsADirectoryError
      end
    else update (put_file c) root (segments p)
  else Raise FileNotFoundError.

Definition fs_remove (root : node) (p : string) : result node :=
  if nonempty p then
    if trailing_slash p then
      match stat root (segments p) with
      | Ok (File _) => Raise NotADirectoryError
      | Ok (Dir _) => Raise IsADirectoryError
      | Raise e => Raise e
      end
    else update unlink root (segments p)
  else Raise FileNotFoundError.

(** ** Object records and the storage client *)

Record object_record := ObjectRecord {
  Key : string;
  Size : Z;
  ETag : string
}.

(** One page of [list_objects_v2]: the response dict with the three members
    the program reads, each possibly absent. *)
Record response := Response {
  Contents : option (list object_record);
  IsTruncated : option bool;
  NextContinuationToken : option string
}.

(** What [download_fileobj] did before it returned or raised: the bytes it
    wrote into the open file, and the exception if it raised. *)
Record transfer := Transfer {
  written : content;
  error : option exn
}.

Record Client := {
  list_objects_v2 : string → option string → result response;
  download_fileobj : string → string → transfer
}.

(** ** Observable events: system calls, requests to the service, log lines *)

Inductive syscall :=
  | SysExists (path : string)
  | SysMakedirs (path : string)
  | SysOpen (path : string) (mode : string)
  | SysRemove (path : string).

Inductive request :=
  | ReqList (bucket : string) (continuation_token : option string)
  | ReqDownload (bucket : string) (key : string).

Inductive level := INFO | SUCCESS | WARNING | ERROR.

(** One constructor per message template of the program. *)
Inductive message :=
  | msg_could_not_read_log (e : exn)
  | msg_creating_directory (directory_path : string)
  | msg_skipping_logged (index total_files : nat) (file_key : string)
  | msg_skipping_exists (index total_files : nat) (file_key : string)
  | msg_downloaded (index total_files : nat) (file_key : string)
  | msg_failed (index total_files : nat) (file_key : string) (e : exn)
  | msg_interrupted
  | msg_resume_hint (logged : nat)
  | msg_fetched_page (fetched total : nat)
  | msg_fetched_total (total : nat) (bucket : string)
  | msg_resuming (logged : nat)
  | msg_total_files (total : nat)
  | msg_summary_header
  | msg_summary_downloaded (n : Z)
  | msg_summary_skipped_logged (n : Z)
  | msg_summary_skipped_exists (n : Z)
  | msg_summary_failed (n : Z)
  | msg_total_processed (total : nat)
  | msg_exiting
  | msg_error_occurred (e : exn).

Inductive event :=
  | Sys (c : syscall)
  | Net (r : request)
  | Log (l : level) (m : message).

(** ** State, exceptions and events

    A computation takes the state and gives back a value or a raised
    exception, the state as its effects left it (what was written before an
    exception stays written), and the events it caused, oldest first. *)

Definition M (St A : Type) : Type := St → result A * St * list event.

#[global] Instance M_ret {St} : MRet (M St) := λ A a s, (Ok a, s, []).

#[global] Instance M_bind {St} : MBind (M St) := λ A B k m s,
  match m s with
  | (Ok a, s', t) =>
      match k a s' with
      | (r, s'', t') => (r, s'', t ++ t')
      end
  | (Raise e, s', t) => (Raise e, s', t)
  end.

Definition raise {St A} (e : exn) : M St A := λ s, (Raise e, s, []).

Definition of_result {St A} (r : result A) : M St A := λ s, (r, s, []).

Definition emit {St} (e : event) : M St unit := λ s, (Ok (), s, [e]).

(** [try: m except <catches> as e: h e] *)
Definition try_except {St A} (m : M St A) (catches : exn → bool) (h : exn → M St A)
    : M St A :=
  λ s,
    match m s with
    | (Raise e, s', t) =>
        if catches e then
          match h e s' with
          | (r, s'', t') => (r, s'', t ++ t')
          end
        else (Raise e, s', t)
    | (Ok a, s', t) => (Ok a, s', t)
    end.

Fixpoint for_each {St A} (l : list A) (body : A → M St unit) : M St unit :=
  match l with
  | [] => mret ()
  | x :: l' => body x;; for_each l' body
  end.

(** [for index, x in enumerate(l, start)] *)
Fixpoint for_enumerate {St A} (start : nat) (l : list A) (body : nat → A → M St unit)
    : M St unit :=
  match l with
  | [] => mret ()
  | x :: l' => body start x;; for_enumerate (S start) l' body
  end.

(** A call that reads the disk. *)
Definition reading {A} (f : node → result A) : M node A :=
  λ d, (f d, d, []).

(** A call that changes the disk, or raises and leaves it alone. *)
Definition writing (f : node → result node) : M node unit :=
  λ d,
    match f d with
    | Ok d' => (Ok (), d', [])
    | Raise e => (Raise e, d, [])
    end.

Definition os_path_exists (p : string) : M node bool :=
  emit (Sys (SysExists p));; reading (λ d, Ok (fs_exists d p)).

Definition os_makedirs (p : string) : M node unit :=
  emit (Sys (SysMakedirs p));; writing (λ d, fs_makedirs d p).

Definition os_remove (p : string) : M node unit :=
  emit (Sys (SysRemove p));; writing (λ d, fs_remove d p).

(** [open(p, "r")], returning what reading the handle will give. *)
Definition open_r (p : string) : M node content :=
  emit (Sys (SysOpen p "r"));; reading (λ d, fs_read d p).

(** [open(p, mode)] for a writing mode: the file is created or truncated. *)
Definition open_w (p : string) (mode : string) : M node unit :=
  emit (Sys (SysOpen p mode));; writing (λ d, fs_write d p (Bytes "")).

(** Writing [c] through the handle of the file opened at [p]. *)
Definition write_handle (p : string) (c : content) : M node unit :=
  λ d,
    match fs_write d p c with
    | Ok d' => (Ok (), d', [])
    | Raise _ => (Ok (), d, [])
    end.

Definition LOGGER_info {St} (m : message) : M St unit := emit (Log INFO m).
Definition LOGGER_success {St} (m : message) : M St unit := emit (Log SUCCESS m).
Definition LOGGER_warning {St} (m : message) : M St unit := emit (Log WARNING m).
Definition LOGGER_error {St} (m : message) : M St unit := emit (Log ERROR m).

(** [client.download_fileobj(bucket, key, f)] with [f] open at [p]. *)
Definition client_download_fileobj (client : Client) (bucket key p : string)
    : M node unit :=
  emit (Net (ReqDownload bucket key));;
  let t := download_fileobj client bucket key in
  write_handle p (written t);;
  match error t with
  | Some e => raise e
  | None => mret ()
  end.

(** * export.py *)

Definition DOWNLOAD_LOG_FILE : string := "download_log.json".

(** [json.dump({"downloaded_files": list(downloaded_files)}, f, indent=2)] *)
Definition ledger_document (downloaded_files : gset atom) : content :=
  Json (JObj [("downloaded_files", JArr (json_of_atom <$> elements downloaded_files))]).

Definition get_download_log (local_path : string) : M node (gset atom) :=
  let log_filepath := local_path +:+ "/" +:+ DOWNLOAD_LOG_FILE in
  present ← os_path_exists log_filepath;
  loaded ← (if present : bool then
              try_except
                (c ← open_r log_filepath;
                 data ← of_result (json_load c);
                 v ← of_result (py_get data "downloaded_files" (JArr []));
                 s ← of_result (py_set v);
                 mret (Some s))
                is_Exception
                (λ e, LOGGER_warning (msg_could_not_read_log e);; mret None)
            else mret None);
  mret (default ∅ loaded).

Definition save_download_log (local_path : string) (downloaded_files : gset atom)
    : M node unit :=
  let log_filepath := local_path +:+ "/" +:+ DOWNLOAD_LOG_FILE in
  os_makedirs local_path;;
  open_w log_filepath "w";;
  write_handle log_filepath (ledger_document downloaded_files).

(** The body of the [for] loop of [create_directories] (lines 66-68). *)
Definition create_directory (local_filepath : string) (directory : object_record)
    : M node unit :=
  let directory_path := local_filepath +:+ "/" +:+ Key directory in
  LOGGER_info (msg_creating_directory directory_path);;
  os_makedirs directory_path.

Definition create_directories (directories : list object_record) (local_filepath : string)
    : M node unit :=
  try_except
    (os_makedirs local_filepath;;
     for_each directories (create_directory local_filepath))
    is_Exception
    (λ e, raise e).

(** The state while [download_objects] runs: the disk and the two locals
    that change. [downloaded_files] is one set object, handed by reference
    to [add_to_download_log]: it is a cell of the frame, so that a change
    made before an exception is still there after it. *)
Record Stats := MkStats {
  downloaded : Z;
  skipped_exists : Z;
  skipped_logged : Z;
  failed : Z
}.

Record frame := Frame {
  disk : node;
  downloaded_files : gset atom;
  stats : Stats
}.

Definition lift {A} (m : M node A) : M frame A :=
  λ fr,
    match m (disk fr) with
    | (r, d, t) => (r, Frame d (downloaded_files fr) (stats fr), t)
    end.

Definition get_downloaded_files : M frame (gset atom) :=
  λ fr, (Ok (downloaded_files fr), fr, []).

(** [downloaded_files.add(a)] *)
Definition set_add (a : atom) : M frame unit :=
  λ fr, (Ok (), Frame (disk fr) ({[a]} ∪ downloaded_files fr) (stats fr), []).

Inductive counter := c_downloaded | c_skipped_exists | c_skipped_logged | c_failed.

Definition bump (c : counter) (s : Stats) : Stats :=
  match c with
  | c_downloaded =>
      MkStats (downloaded s + 1) (skipped_exists s) (skipped_logged s) (failed s)
  | c_skipped_exists =>
      MkStats (downloaded s) (skipped_exists s + 1) (skipped_logged s) (failed s)
  | c_skipped_logged =>
      MkStats (downloaded s) (skipped_exists s) (skipped_logged s + 1) (failed s)
  | c_failed =>
      MkStats (downloaded s) (skipped_exists s) (skipped_logged s) (failed s + 1)
  end.

(** [stats[c] += 1] *)
Definition stats_incr (c : counter) : M frame unit :=
  λ fr, (Ok (), Frame (disk fr) (downloaded_files fr) (bump c (stats fr)), []).

Definition add_to_download_log (local_path file_key : string) : M frame unit :=
  set_add (AStr file_key);;
  s ← get_downloaded_files;
  lift (save_download_log local_path s).

(** The body of the [for] loop of [download_objects] (lines 100-138); every
    branch ends the iteration. *)
Definition download_one (client : Client) (bucket_name local_path : string)
    (total_files index : nat) (file : object_record) : M frame unit :=
  let file_key := Key file in
  let local_filepath := local_path +:+ "/" +:+ file_key in
  logged ← get_downloaded_files;
  if decide (AStr file_key ∈ logged) then
    LOGGER_info (msg_skipping_logged index total_files file_key);;
    stats_incr c_skipped_logged
  else
    present ← lift (os_path_exists local_filepath);
    if present : bool then
      LOGGER_info (msg_skipping_exists index total_files file_key);;
      add_to_download_log local_path file_key;;
      stats_incr c_skipped_exists
    else
      lift (os_makedirs (os_path_dirname local_filepath));;
      try_except
        (lift (open_w local_filepath "wb";;
               client_download_fileobj client bucket_name file_key local_filepath);;
         add_to_download_log local_path file_key;;
         LOGGER_success (msg_downloaded index total_files file_key);;
         stats_incr c_downloaded)
        is_Exception
        (λ e,
           LOGGER_error (msg_failed index total_files file_key e);;
           stats_incr c_failed;;
           still ← lift (os_path_exists local_filepath);
           if still : bool then lift (os_remove local_filepath) else mret ()).

Definition zero_stats : Stats := MkStats 0 0 0 0.

(** The loop with its [KeyboardInterrupt] handler (lines 98-143). *)
Definition download_loop (client : Client) (files : list object_record)
    (bucket_name local_path : string) (total_files start : nat) : M frame unit :=
  try_except
    (for_enumerate start files (download_one client bucket_name local_path total_files))
    is_KeyboardInterrupt
    (λ e,
       LOGGER_warning msg_interrupted;;
       logged ← get_downloaded_files;
       LOGGER_info (msg_resume_hint (size logged));;
       raise e).

Definition download_objects (client : Client) (files : list object_record)
    (bucket_name local_path : string) : M node Stats :=
  λ d,
    match get_download_log local_path d with
    | (Raise e, d1, t1) => (Raise e, d1, t1)
    | (Ok logged, d1, t1) =>
        let total_files := length files in
        match download_loop client files bucket_name local_path total_files 1
                (Frame d1 logged zero_stats) with
        | (Ok _, fr, t2) => (Ok (stats fr), disk fr, t1 ++ t2)
        | (Raise e, fr, t2) => (Raise e, disk fr, t1 ++ t2)
        end
    end.

(** * fetch.py *)

(** Truth value of [continuation_token]: [None] and the empty string are
    false. *)
Definition truthy_token (t : option string) : bool :=
  match t with
  | Some s => nonempty s
  | None => false
  end.

(** The token the next request carries: none unless the variable is true. *)
Definition sent_token (t : option string) : option string :=
  if truthy_token t then t else None.

(** Truth value of [response.get("IsTruncated")]. *)
Definition truthy_flag (b : option bool) : bool := default false b.

(** A computation that may also run for ever: [None] when the fuel does not
    reach its end. *)
Definition Mfuel (A : Type) : Type := node → option (result A * node * list event).

(** The [while True] loop of [list_objects_in_bucket] (lines 15-34), for at
    most [fuel] requests; [t] holds the events so far. *)
Fixpoint list_pages (fuel : nat) (client : Client) (bucket_name : string)
    (continuation_token : option string) (all_objects : list object_record)
    (t : list event) : Mfuel (list object_record) :=
  λ d,
    match fuel with
    | O => None
    | S fuel' =>
        let t1 := t ++ [Net (ReqList bucket_name (sent_token continuation_token))] in
        match list_objects_v2 client bucket_name (sent_token continuation_token) with
        | Raise e => Some (Raise e, d, t1)
        | Ok response =>
            let all_objects' :=
              match Contents response with
              | Some page => all_objects ++ page
              | None => all_objects
              end in
            let t2 :=
              match Contents response with
              | Some page =>
                  t1 ++ [Log INFO (msg_fetched_page (length page) (length all_objects'))]
              | None => t1
              end in
            if truthy_flag (IsTruncated response)
            then list_pages fuel' client bucket_name (NextContinuationToken response)
                   all_objects' t2 d
            else Some (Ok all_objects', d, t2)
        end
    end.

Definition list_objects_in_bucket (fuel : nat) (client : Client) (bucket_name : string)
    : Mfuel (list object_record) :=
  λ d,
    match list_pages fuel client bucket_name None [] [] d with
    | Some (Ok all_objects, d', t) =>
        Some (Ok all_objects, d',
              t ++ [Log INFO (msg_fetched_total (length all_objects) bucket_name)])
    | other => other
    end.

(** * __init__.py *)

(** [[o for o in objects if keep(o["Key"][-1])]]: the records are tested in
    order, and indexing an empty key raises. *)
Fixpoint select (keep : ascii → bool) (objects : list object_record)
    : result (list object_record) :=
  match objects with
  | [] => Ok []
  | o :: rest =>
      match last_char (Key o) with
      | Raise e => Raise e
      | Ok c =>
          match select keep rest with
          | Raise e => Raise e
          | Ok kept => Ok (if keep c then o :: kept else kept)
          end
      end
  end.

Definition is_file_char (c : ascii) : bool := negb (is_slash c).

(** Lines 29-35. *)
Definition summary (stats : Stats) (files : list object_record) : M node unit :=
  LOGGER_success msg_summary_header;;
  LOGGER_success (msg_summary_downloaded (downloaded stats));;
  LOGGER_info (msg_summary_skipped_logged (skipped_logged stats));;
  LOGGER_info (msg_summary_skipped_exists (skipped_exists stats));;
  (if bool_decide (failed stats > 0)
   then LOGGER_warning (msg_summary_failed (failed stats))
   else mret ());;
  LOGGER_success (msg_total_processed (length files)).

(** Lines 15-17. *)
Definition report_progress (EXPORT_DIRECTORY_FILEPATH : string) : M node unit :=
  existing_log ← get_download_log EXPORT_DIRECTORY_FILEPATH;
  if bool_decide (existing_log ≠ ∅)
  then LOGGER_info (msg_resuming (size existing_log))
  else mret ().

(** Lines 20-35, once [objects] is there. *)
Definition export_objects (client : Client) (objects : list object_record)
    (DO_STORAGE_BUCKET_NAME EXPORT_DIRECTORY_FILEPATH : string) : M node Stats :=
  files ← of_result (select is_file_char objects);
  directories ← of_result (select is_slash objects);
  LOGGER_info (msg_total_files (length files));;
  create_directories directories EXPORT_DIRECTORY_FILEPATH;;
  stats ← download_objects client files DO_STORAGE_BUCKET_NAME EXPORT_DIRECTORY_FILEPATH;
  summary stats files;;
  mret stats.

(** The [try] block of [init_script] (lines 12-35), with the value of its
    local [stats] as the result. The client and the two configuration
    constants are arguments. *)
Definition init_script_try (fuel : nat) (client : Client)
    (DO_STORAGE_BUCKET_NAME EXPORT_DIRECTORY_FILEPATH : string) : Mfuel Stats :=
  λ d,
    match report_progress EXPORT_DIRECTORY_FILEPATH d with
    | (Raise e, d0, t0) => Some (Raise e, d0, t0)
    | (Ok _, d0, t0) =>
        match list_objects_in_bucket fuel client DO_STORAGE_BUCKET_NAME d0 with
        | None => None
        | Some (Raise e, d1, t1) => Some (Raise e, d1, t0 ++ t1)
        | Some (Ok objects, d1, t1) =>
            match export_objects client objects DO_STORAGE_BUCKET_NAME
                    EXPORT_DIRECTORY_FILEPATH d1 with
            | (r, d2, t2) => Some (r, d2, t0 ++ t1 ++ t2)
            end
        end
    end.

(** [init_script]: the two [except] clauses log and the function returns. *)
Definition init_script (fuel : nat) (client : Client)
    (DO_STORAGE_BUCKET_NAME EXPORT_DIRECTORY_FILEPATH : string)
    : node → option (node * list event) :=
  λ d,
    match init_script_try fuel client DO_STORAGE_BUCKET_NAME EXPORT_DIRECTORY_FILEPATH d with
    | None => None
    | Some (Ok _, d', t) => Some (d', t)
    | Some (Raise e, d', t) =>
        if is_KeyboardInterrupt e
        then Some (d', t ++ [Log INFO msg_exiting])
        else Some (d', t ++ [Log ERROR (msg_error_occurred e)])
    end.

(** * Observations the properties are stated with *)

(** The file at a place of the tree, if there is one, and whether there is
    a directory. *)
Definition file_at (n : node) (p : list string) : option content :=
  match stat n p with
  | Ok (File c) => Some c
  | _ => None
  end.

Definition dir_at (n : node) (p : list string) : bool :=
  match stat n p with
  | Ok (Dir _) => true
  | _ => false
  end.

(** [f] acts on files only: it refuses a directory and never makes one. *)
Definition file_only (f : option node → result (option node)) : Prop :=
  (∀ es, ∃ e, f (Some (Dir es)) = Raise e) ∧
  (∀ x es, f x ≠ Ok (Some (Dir es))).

Definition ledger_path (local_path : string) : string :=
  local_path +:+ "/" +:+ DOWNLOAD_LOG_FILE.

(** What [get_download_log] makes of a file's contents. *)
Definition decode_ledger (c : content) : result (gset atom) :=
  match json_load c with
  | Raise e => Raise e
  | Ok data =>
      match py_get data "downloaded_files" (JArr []) with
      | Raise e => Raise e
      | Ok v => py_set v
      end
  end.

(** The ledger a run starting on disk [d] would load. *)
Definition on_disk_ledger (d : node) (local_path : string) : gset atom :=
  match get_download_log local_path d with
  | (Ok s, _, _) => s
  | (Raise _, _, _) => ∅
  end.

(** Whether [save_download_log] would succeed on disk [d]. *)
Definition can_save (d : node) (local_path : string) : bool :=
  match save_download_log local_path ∅ d with
  | (Ok _, _, _) => true
  | (Raise _, _, _) => false
  end.

(** A file record, as [init_script] selects them: the key is not empty and
    does not end in a slash. *)
Definition is_file_key (k : string) : bool :=
  match last_char k with
  | Ok c => is_file_char c
  | Raise _ => false
  end.

Definition is_marker_key (k : string) : bool :=
  match last_char k with
  | Ok c => is_slash c
  | Raise _ => false
  end.

(** ** [download_one], with its sequencing carried out

    The same function written as one case analysis on what the filesystem
    and the client answer; [download_one_iteration] proves them equal. *)

(** The end of the [except] clause (lines 136-137) on disk [d]. *)
Definition cleanup (path : string) (d : node) : result unit * node * list event :=
  if fs_exists d path then
    match fs_remove d path with
    | Ok d' => (Ok (), d', [Sys (SysExists path); Sys (SysRemove path)])
    | Raise e => (Raise e, d, [Sys (SysExists path); Sys (SysRemove path)])
    end
  else (Ok (), d, [Sys (SysExists path)]).

(** The [except] clause (lines 132-138), entered with exception [e] after
    the events [pre], on disk [d] and with the set [logged]. *)
Definition on_failure (total_files index : nat) (file_key path : string) (e : exn)
    (pre : list event) (d : node) (logged : gset atom) (st : Stats)
    : result unit * frame * list event :=
  match cleanup path d with
  | (r, d', tc) =>
      (r, Frame d' logged (bump c_failed st),
       pre ++ Log ERROR (msg_failed index total_files file_key e) :: tc)
  end.

Definition iteration (client : Client) (bucket_name local_path : string)
    (total_files index : nat) (file : object_record) (fr : frame)
    : result unit * frame * list event :=
  let file_key := Key file in
  let path := local_path +:+ "/" +:+ file_key in
  let d := disk fr in
  let logged := downloaded_files fr in
  let st := stats fr in
  if decide (AStr file_key ∈ logged) then
    (Ok (), Frame d logged (bump c_skipped_logged st),
     [Log INFO (msg_skipping_logged index total_files file_key)])
  else if fs_exists d path then
    let pre := [Sys (SysExists path);
                Log INFO (msg_skipping_exists index total_files file_key)] in
    match save_download_log local_path ({[AStr file_key]} ∪ logged) d with
    | (Ok _, d', ts) =>
        (Ok (), Frame d' ({[AStr file_key]} ∪ logged) (bump c_skipped_exists st), pre ++ ts)
    | (Raise e, d', ts) =>
        (Raise e, Frame d' ({[AStr file_key]} ∪ logged) st, pre ++ ts)
    end
  else
    let pre0 := [Sys (SysExists path); Sys (SysMakedirs (os_path_dirname path))] in
    match fs_makedirs d (os_path_dirname path) with
    | Raise e => (Raise e, Frame d logged st, pre0)
    | Ok d1 =>
        let pre1 := pre0 ++ [Sys (SysOpen path "wb")] in
        match fs_write d1 path (Bytes "") with
        | Raise e => on_failure total_files index file_key path e pre1 d1 logged st
        | Ok d2 =>
            let t := download_fileobj client bucket_name file_key in
            let d3 := match fs_write d2 path (written t) with
                      | Ok d3 => d3
                      | Raise _ => d2
                      end in
            let pre2 := pre1 ++ [Net (ReqDownload bucket_name file_key)] in
            match error t with
            | Some e =>
                if is_Exception e
                then on_failure total_files index file_key path e pre2 d3 logged st
                else (Raise e, Frame d3 logged st, pre2)
            | None =>
                match save_download_log local_path ({[AStr file_key]} ∪ logged) d3 with
                | (Ok _, d4, ts) =>
                    (Ok (),
                     Frame d4 ({[AStr file_key]} ∪ logged) (bump c_downloaded st),
                     pre2 ++ ts ++
                       [Log SUCCESS (msg_downloaded index total_files file_key)])
                | (Raise e, d4, ts) =>
                    on_failure total_files index file_key path e (pre2 ++ ts) d4
                      ({[AStr file_key]} ∪ logged) st
                end
            end
        end
    end.

(** ** What a trace reports *)

(** Keys reported as downloaded (line 127), as skipped because the file
    exists (line 111), as skipped because logged (line 105) and as failed
    (line 133), and keys for which a download was requested. *)
Definition downloaded_keys (t : list event) : list string :=
  omap (λ e, match e with
             | Log SUCCESS (msg_downloaded _ _ k) => Some k
             | _ => None
             end) t.

Definition skipped_exists_keys (t : list event) : list string :=
  omap (λ e, match e with
             | Log INFO (msg_skipping_exists _ _ k) => Some k
             | _ => None
             end) t.

Definition requested_keys (t : list event) : list string :=
  omap (λ e, match e with
             | Net (ReqDownload _ k) => Some k
             | _ => None
             end) t.

Definition is_sys (e : event) : bool :=
  match e with Sys _ => true | _ => false end.

(** No system call and no request to the service. *)
Definition no_io (t : list event) : Prop :=
  Forall (λ e, match e with Log _ _ => True | _ => False end) t.

Definition keys_set (l : list string) : gset atom := list_to_set (AStr <$> l).

Definition total (s : Stats) : Z :=
  downloaded s + skipped_exists s + skipped_logged s + failed s.

(** ** Steps of the download loop *)

(** [created d dx p]: [dx] is [d] with a file added at [p], where [d] had
    nothing, and possibly more directories. *)
Definition created (d dx : node) (p : list string) : Prop :=
  (∃ e, stat d p = Raise e) ∧
  (∃ c, file_at dx p = Some c) ∧
  (∀ q, q ≠ p → file_at dx q = file_at d q) ∧
  (∀ q, dir_at d q = true → dir_at dx q = true).

Definition dirs_kept (d d' : node) : Prop :=
  ∀ q, dir_at d q = true → dir_at d' q = true.

Definition files_same (d d' : node) : Prop :=
  ∀ q, file_at d' q = file_at d q.

(** The three ways an iteration ends without raising: the key was logged;
    the key was added and the ledger saved, counted under [c]; the
    download or the save failed. *)
Definition logged_step (index total_files : nat) (k : string) (fr fr' : frame)
    (t : list event) : Prop :=
  AStr k ∈ downloaded_files fr ∧
  fr' = Frame (disk fr) (downloaded_files fr) (bump c_skipped_logged (stats fr)) ∧
  t = [Log INFO (msg_skipping_logged index total_files k)].

Definition persisted_step (local_path k : string) (c : counter) (fr fr' : frame)
    (t : list event) : Prop :=
  (AStr k ∉ downloaded_files fr) ∧
  stats fr' = bump c (stats fr) ∧
  downloaded_files fr' = {[AStr k]} ∪ downloaded_files fr ∧
  on_disk_ledger (disk fr') local_path = {[AStr k]} ∪ downloaded_files fr ∧
  dirs_kept (disk fr) (disk fr') ∧
  can_save (disk fr) local_path = true ∧
  skipped_exists_keys t = (if c is c_skipped_exists then [k] else []) ∧
  downloaded_keys t = (if c is c_downloaded then [k] else []) ∧
  requested_keys t = (if c is c_downloaded then [k] else []).

Definition failed_step (local_path k : string) (fr fr' : frame) (t : list event) : Prop :=
  (AStr k ∉ downloaded_files fr) ∧
  stats fr' = bump c_failed (stats fr) ∧
  files_same (disk fr) (disk fr') ∧
  dirs_kept (disk fr) (disk fr') ∧
  skipped_exists_keys t = [] ∧
  downloaded_keys t = [] ∧
  (requested_keys t = [] ∨ requested_keys t = [k]) ∧
  (downloaded_files fr' = downloaded_files fr ∨
   (downloaded_files fr' = {[AStr k]} ∪ downloaded_files fr ∧
    can_save (disk fr') local_path = false)) ∧
  (can_save (disk fr) local_path = false → can_save (disk fr') local_path = false).

(** ** The listing, as the service hands it out

    [served client bucket token pages outcome]: asked from [token] on, the
    service answers with [pages], in this order, and then either reports no
    more truncation ([None]) or a request raises ([Some e]). *)
Inductive served (client : Client) (bucket : string)
    : option string → list (list object_record) → option exn → Prop :=
  | served_raise token e :
      list_objects_v2 client bucket (sent_token token) = Raise e →
      served client bucket token [] (Some e)
  | served_last token r :
      list_objects_v2 client bucket (sent_token token) = Ok r →
      truthy_flag (IsTruncated r) = false →
      served client bucket token [default [] (Contents r)] None
  | served_more token r pages outcome :
      list_objects_v2 client bucket (sent_token token) = Ok r →
      truthy_flag (IsTruncated r) = true →
      served client bucket (NextContinuationToken r) pages outcome →
      served client bucket token (default [] (Contents r) :: pages) outcome.

(** The selection of [init_script] on one key. *)
Definition keep_key (keep : ascii → bool) (k : string) : bool :=
  match last_char k with
  | Ok c => keep c
  | Raise _ => false
  end.

(** * A small bucket and a few disks, for closed examples *)

Definition record_of (k : string) : object_record := ObjectRecord k 0 "".

(** A service with one page of three records: a file, a directory marker
    and a file under it. Downloading a key of [failing] writes part of the
    object and raises; any other key is written whole. *)
Definition bucket_client (failing : list string) : Client := {|
  list_objects_v2 := λ _ _,
    Ok (Response (Some [record_of "a"; record_of "d/"; record_of "d/b"]) (Some false) None);
  download_fileobj := λ _ k,
    if bool_decide (k ∈ failing)
    then Transfer (Bytes "part") (Some (ClientError "500"))
    else Transfer (Bytes k) None
|}.

(** The export directory with one file in it, [out/a]. *)
Definition disk_with_a : node :=
  Dir {[ "out" := Dir {[ "a" := File (Bytes "a") ]} ]}.

(** * Three sentences of the specification, as it words them

    Each is compared with the code below: it fails on a small bucket, and
    the statement that holds is proved next to it. *)

(** The classification of one record: the iteration returns with one
    counter incremented; for a logged key it is [skipped_logged] and nothing
    but logging happens; else, for a path that exists, it is
    [skipped_exists] and the key is in the set; else a download is requested,
    and when the transfer succeeds the counter is [downloaded] and the key
    is in the set. *)
Definition classified_as_specified (client : Client) (bucket lp : string)
    (total_files index : nat) (file : object_record) (fr : frame) : Prop :=
  ∃ fr' t c,
    download_one client bucket lp total_files index file fr = (Ok (), fr', t) ∧
    stats fr' = bump c (stats fr) ∧
    if decide (AStr (Key file) ∈ downloaded_files fr) then
      c = c_skipped_logged ∧ no_io t
    else if fs_exists (disk fr) (lp +:+ "/" +:+ Key file) then
      c = c_skipped_exists ∧ AStr (Key file) ∈ downloaded_files fr'
    else
      requested_keys t = [Key file] ∧
      (error (download_fileobj client bucket (Key file)) = None →
       c = c_downloaded ∧ AStr (Key file) ∈ downloaded_files fr').

(** The ledger between iterations: starting without a ledger, once the
    loop has gone through the first records of [files] the ledger file holds
    exactly the keys reported as downloaded. *)
Definition exactly_the_downloaded (client : Client) (bucket lp : string)
    (files : list object_record) (d : node) : Prop :=
  ∀ pre post fr' t,
    files = pre ++ post →
    on_disk_ledger d lp = ∅ →
    for_enumerate 1 pre (download_one client bucket lp (length files))
      (Frame d ∅ zero_stats) = (Ok (), fr', t) →
    on_disk_ledger (disk fr') lp = keys_set (downloaded_keys t).

(** The second run: after a run that returned, a run on the disk it left
    downloads nothing and skips every file as logged. *)
Definition second_run_as_specified (fuel : nat) (client : Client) (bucket lp : string)
    (d : node) : Prop :=
  ∀ s1 d1 t1,
    init_script_try fuel client bucket lp d = Some (Ok s1, d1, t1) →
    ∃ s2 d2 t2,
      init_script_try fuel client bucket lp d1 = Some (Ok s2, d2, t2) ∧
      downloaded s2 = 0 ∧ skipped_logged s2 = total s1.

(** * More observations, and more examples *)

(** The progress lines of [download_objects] (lines 105, 111, 127-129 and
    133): the counter [index/total_files] and the key each one names. *)
Definition progress_lines (t : list event) : list (nat * nat * string) :=
  omap (λ e, match e with
             | Log INFO (msg_skipping_logged i n k) => Some (i, n, k)
             | Log INFO (msg_skipping_exists i n k) => Some (i, n, k)
             | Log SUCCESS (msg_downloaded i n k) => Some (i, n, k)
             | Log ERROR (msg_failed i n k _) => Some (i, n, k)
             | _ => None
             end) t.

(** The page lines of [list_objects_in_bucket] (lines 26-28): the size of
    the page and the running total. *)
Definition page_lines (t : list event) : list (nat * nat) :=
  omap (λ e, match e with
             | Log INFO (msg_fetched_page n m) => Some (n, m)
             | _ => None
             end) t.

(** The tokens of the list requests of a trace, in order. *)
Definition list_tokens (t : list event) : list (option string) :=
  omap (λ e, match e with
             | Net (ReqList _ token) => Some token
             | _ => None
             end) t.

(** [d'] has every file of [d] with its contents, except possibly the one
    at [p], and every directory of [d]. *)
Definition keeps_but (p : list string) (d d' : node) : Prop :=
  (∀ q c, q ≠ p → file_at d q = Some c → file_at d' q = Some c) ∧
  dirs_kept d d'.

(** A service whose every page says it is truncated and names no next
    page. *)
Definition tokenless_client : Client := {|
  list_objects_v2 := λ _ _, Ok (Response (Some [record_of "a"]) (Some true) None);
  download_fileobj := λ _ k, Transfer (Bytes k) None
|}.

(** A service whose listing raises. *)
Definition unreachable_client : Client := {|
  list_objects_v2 := λ _ _, Raise (ClientError "503");
  download_fileobj := λ _ k, Transfer (Bytes k) None
|}.

(** The service of [bucket_client], with the user interrupting the
    download of [key] after part of it was written. *)
Definition interrupted_client (key : string) : Client := {|
  list_objects_v2 := list_objects_v2 (bucket_client []);
  download_fileobj := λ b k,
    if bool_decide (k = key)
    then Transfer (Bytes "part") (Some KeyboardInterrupt)
    else download_fileobj (bucket_client []) b k
|}.

(** An export directory with a ledger that is an object without the
    ["downloaded_files"] member, and one with a ledger that is a list. *)
Definition disk_with_bare_ledger : node :=
  Dir {[ "out" := Dir {[ "download_log.json" := File (Json (JObj [("version", JNum 1)])) ]} ]}.

Definition disk_with_list_ledger : node :=
  Dir {[ "out" := Dir {[ "download_log.json" := File (Json (JArr [JStr "a"])) ]} ]}.

(** The running totals of pages of the given sizes, counted from [from]. *)
Fixpoint running_totals (from : nat) (sizes : list nat) : list (nat * nat) :=
  match sizes with
  | [] => []
  | n :: rest => (n, (from + n)%nat) :: running_totals (from + n) rest
  end.

(** The counter each progress line of a trace stands for. *)
Definition classified (t : list event) : list counter :=
  omap (λ e, match e with
             | Log INFO (msg_skipping_logged _ _ _) => Some c_skipped_logged
             | Log INFO (msg_skipping_exists _ _ _) => Some c_skipped_exists
             | Log SUCCESS (msg_downloaded _ _ _) => Some c_downloaded
             | Log ERROR (msg_failed _ _ _ _) => Some c_failed
             | _ => None
             end) t.

(** A service that lists a file [a] and a directory marker [a/]. *)
Definition shadowing_client : Client := {|
  list_objects_v2 := λ _ _,
    Ok (Response (Some [record_of "a"; record_of "a/"; record_of "b"]) (Some false) None);
  download_fileobj := λ _ k, Transfer (Bytes k) None
|}.

(** A service with two pages, the second reached through the token. *)
Definition paged_client : Client := {|
  list_objects_v2 := λ _ token,
    match token with
    | None => Ok (Response (Some [record_of "a"; record_of "b"]) (Some true) (Some "next"))
    | Some _ => Ok (Response (Some [record_of "c"]) None None)
    end;
  download_fileobj := λ _ k, Transfer (Bytes k) None
|}.

(** An export directory where a directory is in the place of the ledger
    file. *)
Definition disk_with_ledger_dir : node :=
  Dir {[ "out" := Dir {[ "download_log.json" := Dir ∅ ]} ]}.


(** * Paths *)

Lemma fields_nonnil s : fields s ≠ [].
Proof. destruct s as [|c s]; simpl; [done|]. destruct (is_slash c); [done|]. by destruct (fields s). Qed.

Lemma fields_app_slash a b : fields (a +:+ String "/" b) = fields a ++ fields b.
Proof.
  induction a as [|c a IH]; simpl; [done|].
  rewrite IH. destruct (is_slash c); [done|].
  pose proof (fields_nonnil a). by destruct (fields a).
Qed.

Lemma segments_join a b : segments (a +:+ "/" +:+ b) = segments a ++ segments b.
Proof.
  unfold segments. change ("/" +:+ b) with (String "/" b).
  by rewrite fields_app_slash, List.filter_app.
Qed.

Lemma nonempty_join a b : nonempty (a +:+ "/" +:+ b) = true.
Proof. by destruct a. Qed.

Lemma list_ascii_app a b :
  list_ascii_of_string (a +:+ b) = list_ascii_of_string a ++ list_ascii_of_string b.
Proof. induction a as [|c a IH]; simpl; [done|]. by rewrite IH. Qed.

Lemma last_app_cons {A} (l1 l2 : list A) x : last (l1 ++ x :: l2) = last (x :: l2).
Proof.
  rewrite last_app. destruct (last (x :: l2)) eqn:E; [done|].
  by rewrite last_cons in E; destruct (last l2).
Qed.

Lemma trailing_slash_join a b :
  trailing_slash (a +:+ "/" +:+ b) = if nonempty b then trailing_slash b else true.
Proof.
  unfold trailing_slash. change ("/" +:+ b) with (String "/" b).
  rewrite list_ascii_app. simpl. rewrite last_app_cons.
  destruct b as [|c b]; [done|].
  change (list_ascii_of_string (String c b)) with (c :: list_ascii_of_string b).
  change ("/"%char :: c :: list_ascii_of_string b)
    with (["/"%char] ++ c :: list_ascii_of_string b).
  by rewrite last_app_cons.
Qed.

Lemma fields_empty_field s : fields s = [""] → s = "".
Proof.
  destruct s as [|c s]; simpl; [done|].
  pose proof (fields_nonnil s). destruct (is_slash c).
  - destruct (fields s); [done|]. discriminate.
  - destruct (fields s); discriminate.
Qed.

Lemma removelast_cons_cons {A} (x y : A) l : removelast (x :: y :: l) = x :: removelast (y :: l).
Proof. done. Qed.

Lemma fields_upto_last_slash s :
  fields (upto_last_slash s) = removelast (fields s) ++ [""].
Proof.
  induction s as [|c s IH]; simpl; [done|].
  pose proof (fields_nonnil s) as Hne.
  destruct (is_slash c) eqn:Hc.
  - destruct (fields s) as [|f fs] eqn:Hf; [done|].
    rewrite removelast_cons_cons, <-app_comm_cons, <-IH.
    destruct (upto_last_slash s); simpl; by rewrite Hc.
  - destruct (fields s) as [|f fs] eqn:Hf; [done|].
    destruct (upto_last_slash s) as [|c' h] eqn:Hu.
    + simpl in IH. destruct fs; [done|].
      apply (f_equal length) in IH. rewrite length_app in IH. simpl in IH. lia.
    + destruct fs as [|f' fs].
      { cbn [removelast app] in IH. apply fields_empty_field in IH. discriminate. }
      rewrite !removelast_cons_cons. rewrite removelast_cons_cons in IH.
      change (fields (String c (String c' h)))
        with (if is_slash c then "" :: fields (String c' h)
              else match fields (String c' h) with
                   | f :: fs => String c f :: fs
                   | [] => [String c ""]
                   end).
      rewrite Hc, IH. done.
Qed.

Lemma fields_rstrip_slash s :
  ∃ k, fields s = fields (rstrip_slash s) ++ replicate k "".
Proof.
  induction s as [|c s [k IH]]; simpl; [by exists 0%nat|].
  destruct (rstrip_slash s) as [|c' r] eqn:Hr.
  - simpl in IH. destruct (is_slash c) eqn:Hc.
    + exists (S k). simpl. by rewrite IH.
    + exists k. rewrite IH. simpl. by rewrite Hc.
  - exists k.
    change (fields (String c (String c' r)))
      with (if is_slash c then "" :: fields (String c' r)
            else match fields (String c' r) with
                 | f :: fs => String c f :: fs
                 | [] => [String c ""]
                 end).
    rewrite IH. destruct (is_slash c); [done|].
    pose proof (fields_nonnil (String c' r)). by destruct (fields (String c' r)).
Qed.

Lemma filter_nonempty_replicate k : List.filter nonempty (replicate k "") = [].
Proof. induction k; simpl; done. Qed.

Lemma segments_rstrip_slash s : segments (rstrip_slash s) = segments s.
Proof.
  unfold segments. destruct (fields_rstrip_slash s) as [k ->].
  by rewrite List.filter_app, filter_nonempty_replicate, app_nil_r.
Qed.

Lemma segments_dirname p :
  segments (os_path_dirname p) = List.filter nonempty (removelast (fields p)).
Proof.
  unfold os_path_dirname.
  assert (segments (upto_last_slash p) = List.filter nonempty (removelast (fields p))) as H.
  { unfold segments. rewrite fields_upto_last_slash, List.filter_app. simpl.
    by rewrite app_nil_r. }
  destruct (forallb _ _); [done|]. by rewrite segments_rstrip_slash.
Qed.

Lemma trailing_slash_cons c c' s :
  trailing_slash (String c (String c' s)) = trailing_slash (String c' s).
Proof.
  unfold trailing_slash.
  change (list_ascii_of_string (String c (String c' s)))
    with ([c] ++ c' :: list_ascii_of_string s).
  by rewrite last_app_cons.
Qed.

Lemma last_field_nonempty p :
  trailing_slash p = false → nonempty p = true →
  ∃ f, last (fields p) = Some f ∧ nonempty f = true.
Proof.
  induction p as [|c p IH]; [done|]. intros Ht _.
  destruct p as [|c' p].
  - unfold trailing_slash in Ht. simpl in *. rewrite Ht. by eexists.
  - rewrite trailing_slash_cons in Ht. destruct (IH Ht eq_refl) as (f & Hl & Hf).
    change (fields (String c (String c' p)))
      with (if is_slash c then "" :: fields (String c' p)
            else match fields (String c' p) with
                 | f :: fs => String c f :: fs
                 | [] => [String c ""]
                 end).
    destruct (is_slash c).
    + exists f. split; [|done]. rewrite last_cons. by rewrite Hl.
    + destruct (fields (String c' p)) as [|f0 fs]; [done|].
      destruct fs as [|f1 fs].
      * simpl in Hl. eexists. split; [done|]. done.
      * exists f. split; [|done].
        change (last (String c f0 :: f1 :: fs)) with (last (f1 :: fs)).
        by change (last (f0 :: f1 :: fs)) with (last (f1 :: fs)) in Hl.
Qed.

(** The segments of a file path are those of its [dirname] and one more. *)
Lemma segments_dirname_snoc p :
  trailing_slash p = false → nonempty p = true →
  ∃ f, segments p = segments (os_path_dirname p) ++ [f].
Proof.
  intros Ht Hn. destruct (last_field_nonempty p Ht Hn) as (f & Hl & Hf).
  exists f. rewrite segments_dirname. unfold segments.
  apply last_Some in Hl as [l' Hl]. rewrite Hl.
  rewrite removelast_last, List.filter_app. simpl. by rewrite Hf.
Qed.


(** * The filesystem tree *)

Lemma stat_empty_dir q : q ≠ [] → stat empty_dir q = Raise FileNotFoundError.
Proof. destruct q; [done|]. intros _. simpl. by rewrite lookup_empty. Qed.

Lemma stat_file_cons c s q : stat (File c) (s :: q) = Raise NotADirectoryError.
Proof. done. Qed.

(** ** [mkdirs] *)

Lemma mkdirs_stat_other p : ∀ n n' q,
  mkdirs n p = Ok n' → ¬ q `prefix_of` p → stat n' q = stat n q.
Proof.
  induction p as [|s p IH]; intros n n' q Hm Hq.
  - simpl in Hm. destruct n; by simplify_eq.
  - simpl in Hm. destruct n as [c|es]; [done|].
    destruct (mkdirs (default empty_dir (es !! s)) p) as [m|] eqn:Hm'; [|done].
    simplify_eq.
    destruct q as [|s2 q]; [exfalso; apply Hq, prefix_nil|].
    simpl. destruct (decide (s2 = s)) as [->|Hne].
    + rewrite lookup_insert_eq.
      assert (¬ q `prefix_of` p) as Hq' by (intros ?; apply Hq; by apply prefix_cons).
      rewrite (IH _ _ _ Hm' Hq'). destruct (es !! s); simpl; [done|].
      apply stat_empty_dir. intros ->. apply Hq', prefix_nil.
    + by rewrite lookup_insert_ne.
Qed.

Lemma mkdirs_prefix_dir p : ∀ n n' q,
  mkdirs n p = Ok n' → q `prefix_of` p → dir_at n' q = true.
Proof.
  induction p as [|s p IH]; intros n n' q Hm Hq.
  - apply prefix_nil_inv in Hq as ->. simpl in Hm. destruct n; by simplify_eq.
  - simpl in Hm. destruct n as [c|es]; [done|].
    destruct (mkdirs (default empty_dir (es !! s)) p) as [m|] eqn:Hm'; [|done].
    simplify_eq. destruct q as [|s2 q]; [done|].
    apply prefix_cons_inv_1 in Hq as Hs. subst s2.
    apply prefix_cons_inv_2 in Hq.
    unfold dir_at. simpl. rewrite lookup_insert_eq. by apply (IH _ _ _ Hm').
Qed.

Lemma mkdirs_prefix_no_file p : ∀ n n' q,
  mkdirs n p = Ok n' → q `prefix_of` p → file_at n q = None.
Proof.
  induction p as [|s p IH]; intros n n' q Hm Hq.
  - apply prefix_nil_inv in Hq as ->. simpl in Hm. by destruct n.
  - simpl in Hm. destruct n as [c|es]; [done|].
    destruct (mkdirs (default empty_dir (es !! s)) p) as [m|] eqn:Hm'; [|done].
    simplify_eq. destruct q as [|s2 q]; [done|].
    apply prefix_cons_inv_1 in Hq as Hs. subst s2.
    apply prefix_cons_inv_2 in Hq.
    unfold file_at. simpl. destruct (es !! s) as [k|] eqn:Hk; [|done].
    by apply (IH _ _ _ Hm').
Qed.

Lemma dir_at_file_at n q : dir_at n q = true → file_at n q = None.
Proof. unfold dir_at, file_at. by destruct (stat n q) as [[]|]. Qed.

Lemma mkdirs_file_at n n' p q : mkdirs n p = Ok n' → file_at n' q = file_at n q.
Proof.
  intros Hm. destruct (decide (q `prefix_of` p)) as [Hq|Hq].
  - rewrite (mkdirs_prefix_no_file _ _ _ _ Hm Hq).
    by apply dir_at_file_at, (mkdirs_prefix_dir _ _ _ _ Hm Hq).
  - unfold file_at. by rewrite (mkdirs_stat_other _ _ _ _ Hm Hq).
Qed.

Lemma mkdirs_dir_at_mono n n' p q :
  mkdirs n p = Ok n' → dir_at n q = true → dir_at n' q = true.
Proof.
  intros Hm Hd. destruct (decide (q `prefix_of` p)) as [Hq|Hq].
  - by apply (mkdirs_prefix_dir _ _ _ _ Hm Hq).
  - unfold dir_at. by rewrite (mkdirs_stat_other _ _ _ _ Hm Hq).
Qed.

Lemma mkdirs_id p : ∀ n, dir_at n p = true → mkdirs n p = Ok n.
Proof.
  induction p as [|s p IH]; intros n Hd.
  - unfold dir_at in Hd. simpl in *. by destruct n.
  - unfold dir_at in Hd. simpl in *. destruct n as [c|es]; [done|].
    destruct (es !! s) as [m|] eqn:Hm; [|done]. simpl.
    rewrite (IH m Hd). by rewrite insert_id.
Qed.

Lemma mkdirs_persist_fail p : ∀ n n' q e,
  mkdirs n p = Raise e → mkdirs n q = Ok n' → ∃ e', mkdirs n' p = Raise e'.
Proof.
  induction p as [|s p IH]; intros n n' q e Hp Hq.
  - simpl in Hp. destruct n as [c|es]; [|done].
    destruct q; simpl in Hq; done.
  - simpl in Hp. destruct n as [c|es]; [by destruct q|].
    destruct q as [|s2 q]; simpl in Hq; [simplify_eq; simpl; rewrite Hp; by eexists|].
    destruct (mkdirs (default empty_dir (es !! s2)) q) as [m|] eqn:Hm; [|done].
    simplify_eq. simpl.
    destruct (decide (s2 = s)) as [->|Hne].
    + rewrite lookup_insert_eq. simpl.
      destruct (mkdirs (default empty_dir (es !! s)) p) as [|e0] eqn:Hp0; [done|].
      destruct (IH _ _ _ _ Hp0 Hm) as [e' ->]. by eexists.
    + rewrite lookup_insert_ne by done.
      destruct (mkdirs (default empty_dir (es !! s)) p); [done|]. by eexists.
Qed.

Lemma mkdirs_Exception p : ∀ n e, mkdirs n p = Raise e → is_Exception e = true.
Proof.
  induction p as [|s p IH]; intros n e H; simpl in H.
  - destruct n; by simplify_eq.
  - destruct n as [c|es]; [by simplify_eq|].
    destruct (mkdirs (default empty_dir (es !! s)) p) eqn:Hm; [done|].
    simplify_eq. by eapply IH.
Qed.

(** ** [update] *)

Lemma put_file_file_only c : file_only (put_file c).
Proof.
  split; [intros es; by eexists|].
  intros [[]|] es; simpl; congruence.
Qed.

Lemma unlink_file_only : file_only unlink.
Proof.
  split; [intros es; by eexists|].
  intros [[]|] es; simpl; congruence.
Qed.

Lemma update_cons_cons f es s s' p :
  update f (Dir es) (s :: s' :: p) =
  match es !! s with
  | None => Raise FileNotFoundError
  | Some m =>
      match update f m (s' :: p) with
      | Ok m' => Ok (Dir (<[s:=m']> es))
      | Raise e => Raise e
      end
  end.
Proof. done. Qed.

Lemma update_other f p : file_only f → ∀ n n' q,
  update f n p = Ok n' → q ≠ p →
  file_at n' q = file_at n q ∧ dir_at n' q = dir_at n q.
Proof.
  intros [Hdir Hnodir]. induction p as [|s p IH]; intros n n' q Hu Hq; [done|].
  simpl in Hu. destruct n as [c|es]; [done|].
  destruct p as [|s' p].
  - destruct (f (es !! s)) as [r|] eqn:Hf; [|done].
    destruct q as [|s2 q]; [by destruct r; simplify_eq|].
    unfold file_at, dir_at.
    destruct (decide (s2 = s)) as [->|Hne].
    + assert (q ≠ []) as Hq' by congruence.
      destruct q as [|s3 q]; [done|].
      assert (∀ x, f (es !! s) = Ok x →
              stat (Dir es) (s :: s3 :: q) = Raise NotADirectoryError ∨
              stat (Dir es) (s :: s3 :: q) = Raise FileNotFoundError) as Hold.
      { intros x Hx. simpl. destruct (es !! s) as [[|es']|]; [by left| |by right].
        destruct (Hdir es') as [e He]. congruence. }
      destruct (Hold _ Hf) as [-> | ->];
        destruct r as [[c|es']|]; simplify_eq; simpl;
        rewrite ?lookup_insert_eq, ?lookup_delete_eq; try done;
        by specialize (Hnodir (es !! s) es').
    + destruct r; simplify_eq; simpl;
        by rewrite ?lookup_insert_ne, ?lookup_delete_ne by done.
  - destruct (es !! s) as [m|] eqn:Hm; [|done].
    destruct (update f m (s' :: p)) as [m'|] eqn:Hu'; [|done]. simplify_eq.
    destruct q as [|s2 q]; [done|].
    unfold file_at, dir_at. simpl stat.
    destruct (decide (s2 = s)) as [->|Hne].
    + rewrite lookup_insert_eq, Hm. apply (IH _ _ _ Hu'). congruence.
    + by rewrite lookup_insert_ne.
Qed.

Lemma update_no_dir f p : file_only f → ∀ n n',
  update f n p = Ok n' → dir_at n' p = false ∧ dir_at n p = false.
Proof.
  intros [Hdir Hnodir]. induction p as [|s p IH]; intros n n' Hu; [done|].
  simpl in Hu. destruct n as [c|es]; [done|].
  destruct p as [|s' p].
  - destruct (f (es !! s)) as [r|] eqn:Hf; [|done].
    unfold dir_at. simpl. split.
    + destruct r as [[c|es']|]; simplify_eq; simpl;
        rewrite ?lookup_insert_eq, ?lookup_delete_eq; try done.
      by specialize (Hnodir (es !! s) es').
    + destruct (es !! s) as [[|es']|]; try done.
      destruct (Hdir es') as [e He]. congruence.
  - destruct (es !! s) as [m|] eqn:Hm; [|done].
    destruct (update f m (s' :: p)) as [m'|] eqn:Hu'; [|done]. simplify_eq.
    unfold dir_at. simpl stat. rewrite lookup_insert_eq, Hm.
    apply (IH _ _ Hu').
Qed.

Lemma update_dir_at f n n' p q :
  file_only f → update f n p = Ok n' → dir_at n' q = dir_at n q.
Proof.
  intros Hf Hu. destruct (decide (q = p)) as [->|Hq].
  - destruct (update_no_dir f p Hf _ _ Hu) as [-> ->]. done.
  - by apply (update_other f p Hf _ _ q Hu).
Qed.

Lemma update_put_file_at c p : ∀ n n',
  update (put_file c) n p = Ok n' → file_at n' p = Some c.
Proof.
  induction p as [|s p IH]; intros n n' Hu; [done|].
  simpl in Hu. destruct n as [c0|es]; [done|].
  destruct p as [|s' p].
  - unfold file_at. destruct (es !! s) as [[|]|]; simpl in Hu; simplify_eq; simpl;
      by rewrite lookup_insert_eq.
  - destruct (es !! s) as [m|] eqn:Hm; [|done].
    destruct (update (put_file c) m (s' :: p)) as [m'|] eqn:Hu'; [|done]. simplify_eq.
    unfold file_at. simpl stat. rewrite lookup_insert_eq. apply (IH _ _ Hu').
Qed.

(** Overwriting: the second write does not see the first. *)
Lemma update_put_put c c' p : ∀ n n1,
  update (put_file c) n p = Ok n1 →
  update (put_file c') n1 p = update (put_file c') n p ∧
  ∃ n2, update (put_file c') n p = Ok n2.
Proof.
  induction p as [|s p IH]; intros n n1 Hu; [done|].
  simpl in Hu. destruct n as [c0|es]; [done|].
  destruct p as [|s' p].
  - destruct (es !! s) as [[|]|] eqn:Hs; simpl in Hu; simplify_eq; simpl;
      rewrite lookup_insert_eq, Hs; simpl; rewrite insert_insert_eq; eauto.
  - destruct (es !! s) as [m|] eqn:Hm; [|done].
    destruct (update (put_file c) m (s' :: p)) as [m'|] eqn:Hu'; [|done]. simplify_eq.
    destruct (IH _ _ Hu') as [Heq [n2 Hn2]].
    rewrite !update_cons_cons, lookup_insert_eq, Hm, Heq, Hn2.
    rewrite insert_insert_eq. eauto.
Qed.

(** Creating a file where there was nothing and unlinking it again gives
    the tree back. *)
Lemma update_put_unlink c p : ∀ n n1 e,
  update (put_file c) n p = Ok n1 → stat n p = Raise e →
  update unlink n1 p = Ok n.
Proof.
  induction p as [|s p IH]; intros n n1 e Hu Hs; [done|].
  simpl in Hu, Hs. destruct n as [c0|es]; [done|].
  destruct p as [|s' p].
  - destruct (es !! s) as [k|] eqn:Hk; [done|]. simpl in Hu. simplify_eq.
    simpl. rewrite lookup_insert_eq. simpl. by rewrite delete_insert_eq, delete_id.
  - destruct (es !! s) as [m|] eqn:Hm; [|done].
    destruct (update (put_file c) m (s' :: p)) as [m'|] eqn:Hu'; [|done]. simplify_eq.
    rewrite update_cons_cons, lookup_insert_eq, (IH _ _ _ Hu' Hs).
    by rewrite insert_insert_eq, insert_id.
Qed.

Lemma update_unlink_gone p : ∀ n n',
  update unlink n p = Ok n' → stat n' p = Raise FileNotFoundError.
Proof.
  induction p as [|s p IH]; intros n n' Hu; [done|].
  simpl in Hu. destruct n as [c0|es]; [done|].
  destruct p as [|s' p].
  - destruct (es !! s) as [[|]|]; simpl in Hu; simplify_eq.
    simpl. by rewrite lookup_delete_eq.
  - destruct (es !! s) as [m|] eqn:Hm; [|done].
    destruct (update unlink m (s' :: p)) as [m'|] eqn:Hu'; [|done]. simplify_eq.
    simpl stat. rewrite lookup_insert_eq. apply (IH _ _ Hu').
Qed.

Lemma update_unlink_file c p : ∀ n,
  p ≠ [] → file_at n p = Some c → ∃ n', update unlink n p = Ok n'.
Proof.
  induction p as [|s p IH]; intros n Hp Hf; [done|].
  unfold file_at in Hf. simpl in Hf. destruct n as [c0|es]; [done|].
  destruct (es !! s) as [m|] eqn:Hm; [|done].
  destruct p as [|s' p].
  - simpl in Hf. destruct m; [|done]. simpl. rewrite Hm. simpl. eauto.
  - destruct (IH m) as [m' Hm']; [done|done|].
    rewrite update_cons_cons, Hm, Hm'. eauto.
Qed.

(** Writing a file succeeds under a directory, unless a directory is in
    its place. *)
Lemma update_put_ok c par s : ∀ n,
  dir_at n par = true → dir_at n (par ++ [s]) = false →
  ∃ n', update (put_file c) n (par ++ [s]) = Ok n'.
Proof.
  induction par as [|s0 par IH]; intros n Hd Hn.
  - unfold dir_at in *. simpl in *. destruct n as [|es]; [done|].
    destruct (es !! s) as [[|]|]; simpl; eauto. done.
  - unfold dir_at in *. simpl in Hd, Hn. destruct n as [|es]; [done|].
    destruct (es !! s0) as [m|] eqn:Hm; [|done].
    destruct (IH m Hd Hn) as [m' Hm'].
    change ((s0 :: par) ++ [s]) with (s0 :: (par ++ [s])).
    destruct (par ++ [s]) as [|s1 l] eqn:E; [by destruct par|].
    rewrite update_cons_cons, Hm, Hm'. eauto.
Qed.

Lemma update_Exception f p :
  (∀ x e, f x = Raise e → is_Exception e = true) →
  ∀ n e, update f n p = Raise e → is_Exception e = true.
Proof.
  intros Hf. induction p as [|s p IH]; intros n e H; simpl in H; [by simplify_eq|].
  destruct n as [c|es]; [by simplify_eq|].
  destruct p as [|s' p].
  - destruct (f (es !! s)) as [[]|] eqn:E; simplify_eq. by eapply Hf.
  - destruct (es !! s) as [m|]; [|by simplify_eq].
    destruct (update f m (s' :: p)) eqn:E; simplify_eq. by eapply IH.
Qed.

Lemma put_file_Exception c x e : put_file c x = Raise e → is_Exception e = true.
Proof. destruct x as [[]|]; simpl; intros; by simplify_eq. Qed.

Lemma unlink_Exception x e : unlink x = Raise e → is_Exception e = true.
Proof. destruct x as [[]|]; simpl; intros; by simplify_eq. Qed.

(** [mkdirs] fails only with a file in the way. *)
Lemma mkdirs_raise_file p : ∀ n e,
  mkdirs n p = Raise e → ∃ x c, x `prefix_of` p ∧ file_at n x = Some c.
Proof.
  induction p as [|s p IH]; intros n e H; simpl in H.
  - destruct n as [c|]; [|done]. exists [], c. split; [done|]. done.
  - destruct n as [c|es]; [exists [], c; split; [apply prefix_nil|done]|].
    destruct (mkdirs (default empty_dir (es !! s)) p) as [|e'] eqn:Hm; [done|].
    destruct (IH _ _ Hm) as (x & c & Hx & Hc).
    destruct (es !! s) as [m|] eqn:Hs; simpl in Hc.
    + exists (s :: x), c. split; [by apply prefix_cons|].
      unfold file_at. simpl. by rewrite Hs.
    + unfold file_at in Hc. destruct x; [done|]. simpl in Hc.
      by rewrite lookup_empty in Hc.
Qed.


(** * The [os] calls *)

Lemma fs_makedirs_mkdirs d p d' :
  fs_makedirs d p = Ok d' → mkdirs d (segments p) = Ok d'.
Proof. unfold fs_makedirs. by destruct (nonempty p). Qed.

Lemma fs_write_update d p c d' :
  fs_write d p c = Ok d' →
  trailing_slash p = false ∧ update (put_file c) d (segments p) = Ok d'.
Proof.
  unfold fs_write. destruct (nonempty p); [|done].
  destruct (trailing_slash p); [|done]. by destruct (stat d (segments p)) as [[]|].
Qed.

Lemma fs_remove_update d p d' :
  fs_remove d p = Ok d' →
  trailing_slash p = false ∧ update unlink d (segments p) = Ok d'.
Proof.
  unfold fs_remove. destruct (nonempty p); [|done].
  destruct (trailing_slash p); [|done]. by destruct (stat d (segments p)) as [[]|].
Qed.

Lemma fs_exists_false_file_at d p :
  fs_exists d p = false → trailing_slash p = false → nonempty p = true →
  ∃ e, stat d (segments p) = Raise e.
Proof.
  unfold fs_exists, fs_lookup. intros H Ht Hn. rewrite Hn, Ht in H.
  destruct (stat d (segments p)) as [[]|]; [done|done|by eexists].
Qed.

Lemma fs_read_file_at d p :
  nonempty p = true → trailing_slash p = false →
  fs_read d p = match stat d (segments p) with
                | Ok (File c) => Ok c
                | Ok (Dir _) => Raise IsADirectoryError
                | Raise e => Raise e
                end.
Proof.
  intros Hn Ht. unfold fs_read, fs_lookup. rewrite Hn, Ht.
  by destruct (stat d (segments p)) as [[]|].
Qed.

Lemma fs_exists_stat d p :
  nonempty p = true → trailing_slash p = false →
  fs_exists d p = match stat d (segments p) with Ok _ => true | Raise _ => false end.
Proof.
  intros Hn Ht. unfold fs_exists, fs_lookup. rewrite Hn, Ht.
  by destruct (stat d (segments p)) as [[]|].
Qed.

Lemma stat_Exception p : ∀ n e, stat n p = Raise e → is_Exception e = true.
Proof.
  induction p as [|s p IH]; intros n e H; simpl in H; [done|].
  destruct n as [|es]; [by simplify_eq|].
  destruct (es !! s); [by eapply IH|by simplify_eq].
Qed.

Lemma fs_makedirs_Exception d p e : fs_makedirs d p = Raise e → is_Exception e = true.
Proof.
  unfold fs_makedirs. destruct (nonempty p); [apply mkdirs_Exception|].
  intros; by simplify_eq.
Qed.

Lemma fs_write_Exception d p c e : fs_write d p c = Raise e → is_Exception e = true.
Proof.
  unfold fs_write. destruct (nonempty p); [|intros; by simplify_eq].
  destruct (trailing_slash p).
  - destruct (stat d (segments p)) as [[]|]; intros; by simplify_eq.
  - apply update_Exception, put_file_Exception.
Qed.

Lemma fs_remove_Exception d p e : fs_remove d p = Raise e → is_Exception e = true.
Proof.
  unfold fs_remove. destruct (nonempty p); [|intros; by simplify_eq].
  destruct (trailing_slash p).
  - destruct (stat d (segments p)) as [[]|] eqn:E; intros; simplify_eq; try done.
    by eapply stat_Exception.
  - apply update_Exception, unlink_Exception.
Qed.

Lemma fs_read_Exception d p e : fs_read d p = Raise e → is_Exception e = true.
Proof.
  unfold fs_read, fs_lookup. destruct (nonempty p); [|intros; by simplify_eq].
  destruct (stat d (segments p)) as [[]|] eqn:E; try destruct (trailing_slash p);
    intros; simplify_eq; try done; by eapply stat_Exception.
Qed.

(** * The ledger store *)

Lemma ledger_path_nonempty lp : nonempty (ledger_path lp) = true.
Proof. apply nonempty_join. Qed.

Lemma ledger_path_no_slash lp : trailing_slash (ledger_path lp) = false.
Proof. unfold ledger_path. by rewrite trailing_slash_join. Qed.

Lemma ledger_path_segments lp :
  segments (ledger_path lp) = segments lp ++ [DOWNLOAD_LOG_FILE].
Proof. unfold ledger_path. by rewrite segments_join. Qed.

Lemma json_load_Exception c e : json_load c = Raise e → is_Exception e = true.
Proof. destruct c; simpl; intros; by simplify_eq. Qed.

Lemma py_get_Exception j k dflt e : py_get j k dflt = Raise e → is_Exception e = true.
Proof. destruct j; simpl; intros; by simplify_eq. Qed.

Lemma py_hashables_Exception l e : py_hashables l = Raise e → is_Exception e = true.
Proof.
  revert e. induction l as [|j l IH]; intros e; simpl; [done|].
  destruct j; simpl; try (intros; by simplify_eq);
    destruct (py_hashables l); intros; simplify_eq; by eapply IH.
Qed.

Lemma py_set_Exception j e : py_set j = Raise e → is_Exception e = true.
Proof.
  destruct j; simpl; try (intros; by simplify_eq).
  destruct (py_hashables items) eqn:E; intros; simplify_eq.
  by eapply py_hashables_Exception.
Qed.

Lemma decode_ledger_Exception c e : decode_ledger c = Raise e → is_Exception e = true.
Proof.
  unfold decode_ledger. destruct (json_load c) eqn:E1.
  - destruct (py_get _ _ _) eqn:E2; [apply py_set_Exception|].
    intros; simplify_eq. by eapply py_get_Exception.
  - intros; simplify_eq. by eapply json_load_Exception.
Qed.

(** Closes a case in which something that only raises an [Exception] is
    supposed to have raised something else. *)
Ltac not_Exception :=
  match goal with
  | H : is_Exception ?e = false, H' : _ = Raise ?e |- _ =>
      exfalso;
      first [ apply fs_read_Exception in H'
            | apply fs_write_Exception in H'
            | apply fs_makedirs_Exception in H'
            | apply fs_remove_Exception in H'
            | apply json_load_Exception in H'
            | apply py_get_Exception in H'
            | apply py_set_Exception in H'
            | apply decode_ledger_Exception in H' ];
      congruence
  end.

Ltac run_all :=
  unfold os_path_exists, os_makedirs, os_remove, open_r, open_w, write_handle,
    reading, writing, try_except, of_result, raise,
    LOGGER_info, LOGGER_success, LOGGER_warning, LOGGER_error, emit,
    mbind, mret, M_bind, M_ret;
  simpl.

Lemma get_download_log_run lp d :
  ∃ t, get_download_log lp d = (Ok (on_disk_ledger d lp), d, t).
Proof.
  unfold on_disk_ledger, get_download_log. run_all.
  repeat (case_match; simplify_eq; simpl); eauto; not_Exception.
Qed.

Lemma on_disk_ledger_file_at d lp :
  on_disk_ledger d lp =
  match file_at d (segments (ledger_path lp)) with
  | Some c => match decode_ledger c with Ok s => s | Raise _ => ∅ end
  | None => ∅
  end.
Proof.
  unfold on_disk_ledger, get_download_log. fold (ledger_path lp). run_all.
  rewrite fs_exists_stat by auto using ledger_path_nonempty, ledger_path_no_slash.
  unfold file_at, decode_ledger.
  destruct (stat d (segments (ledger_path lp))) as [k|] eqn:E; simpl; [|done].
  rewrite fs_read_file_at, E by auto using ledger_path_nonempty, ledger_path_no_slash.
  repeat (case_match; simplify_eq; simpl); eauto; try congruence; not_Exception.
Qed.

Lemma py_hashables_atoms l : py_hashables (json_of_atom <$> l) = Ok l.
Proof.
  induction l as [|a l IH]; [done|].
  rewrite fmap_cons. cbn [py_hashables]. rewrite IH. by destruct a.
Qed.

Lemma decode_ledger_document s : decode_ledger (ledger_document s) = Ok s.
Proof.
  unfold decode_ledger, ledger_document. simpl.
  by rewrite py_hashables_atoms, list_to_set_elements_L.
Qed.

Lemma save_download_log_run lp s d :
  save_download_log lp s d =
  match fs_makedirs d lp with
  | Raise e => (Raise e, d, [Sys (SysMakedirs lp)])
  | Ok d1 =>
      match fs_write d1 (ledger_path lp) (Bytes "") with
      | Raise e =>
          (Raise e, d1, [Sys (SysMakedirs lp); Sys (SysOpen (ledger_path lp) "w")])
      | Ok d2 =>
          (Ok (),
           match fs_write d2 (ledger_path lp) (ledger_document s) with
           | Ok d3 => d3
           | Raise _ => d2
           end,
           [Sys (SysMakedirs lp); Sys (SysOpen (ledger_path lp) "w")])
      end
  end.
Proof.
  unfold save_download_log. fold (ledger_path lp). run_all.
  repeat (case_match; simplify_eq; simpl); eauto.
Qed.

(** After a save that returned, the ledger file holds the set; no other
    file changed and no directory went away. *)
Lemma save_download_log_ok lp s d d' t :
  save_download_log lp s d = (Ok (), d', t) →
  on_disk_ledger d' lp = s ∧
  (∀ q, q ≠ segments (ledger_path lp) → file_at d' q = file_at d q) ∧
  (∀ q, dir_at d q = true → dir_at d' q = true).
Proof.
  rewrite save_download_log_run. intros H.
  destruct (fs_makedirs d lp) as [d1|] eqn:Hmk; [|done].
  destruct (fs_write d1 _ _) as [d2|] eqn:Hw; [|done].
  apply fs_makedirs_mkdirs in Hmk.
  apply fs_write_update in Hw as Hw'. destruct Hw' as [Ht Hu].
  destruct (update_put_put _ (ledger_document s) _ _ _ Hu) as [Heq [d3 Hd3]].
  assert (fs_write d2 (ledger_path lp) (ledger_document s) = Ok d3) as Hw3.
  { unfold fs_write. by rewrite ledger_path_nonempty, Ht, Heq. }
  rewrite Hw3 in H. simplify_eq. split; [|split].
  - rewrite on_disk_ledger_file_at, (update_put_file_at _ _ _ _ Hd3).
    by rewrite decode_ledger_document.
  - intros q Hq.
    destruct (update_other _ _ (put_file_file_only _) _ _ q Hd3 Hq) as [-> _].
    by apply mkdirs_file_at with (p := segments lp).
  - intros q Hq. rewrite (update_dir_at _ _ _ _ q (put_file_file_only _) Hd3).
    by eapply mkdirs_dir_at_mono.
Qed.

(** A save that raised wrote no file. *)
Lemma save_download_log_raise lp s d d' t e :
  save_download_log lp s d = (Raise e, d', t) →
  is_Exception e = true ∧
  (∀ q, file_at d' q = file_at d q) ∧
  (∀ q, dir_at d q = true → dir_at d' q = true) ∧
  can_save d lp = false.
Proof.
  unfold can_save. rewrite !save_download_log_run. intros H.
  destruct (fs_makedirs d lp) as [d1|] eqn:Hmk.
  - destruct (fs_write d1 _ _) as [d2|] eqn:Hw; [done|]. simplify_eq.
    apply fs_makedirs_mkdirs in Hmk.
    split; [by eapply fs_write_Exception|]. split; [|split; [|done]].
    + intros q. by eapply mkdirs_file_at.
    + intros q. by eapply mkdirs_dir_at_mono.
  - simplify_eq. split; [by eapply fs_makedirs_Exception|]. done.
Qed.

Lemma can_save_true lp s d :
  can_save d lp = true → ∃ d' t, save_download_log lp s d = (Ok (), d', t).
Proof.
  unfold can_save. rewrite !save_download_log_run.
  destruct (fs_makedirs d lp); [|done]. destruct (fs_write _ _ _); [|done]. eauto.
Qed.

Lemma can_save_false lp s d :
  can_save d lp = false → ∃ e d' t, save_download_log lp s d = (Raise e, d', t).
Proof.
  unfold can_save. rewrite !save_download_log_run.
  destruct (fs_makedirs d lp); [|eauto]. destruct (fs_write _ _ _); [done|eauto].
Qed.

(** Once the ledger cannot be saved it stays so, as long as the files on
    the way to the export directory stay and a directory in the ledger's
    place stays. *)
Lemma can_save_false_mono lp d d' :
  can_save d lp = false →
  (∀ x, x `prefix_of` segments lp → file_at d' x = file_at d x) →
  (dir_at d (segments (ledger_path lp)) = true →
   dir_at d' (segments (ledger_path lp)) = true) →
  can_save d' lp = false.
Proof.
  unfold can_save. rewrite !save_download_log_run. intros Hc Hfile Hdir.
  destruct (fs_makedirs d' lp) as [dB|] eqn:HB; [|done].
  destruct (fs_write dB _ _) as [d2|] eqn:Hw; [|done]. exfalso.
  apply fs_makedirs_mkdirs in HB as HB'.
  apply fs_write_update in Hw as [Ht Hu].
  destruct (update_no_dir _ _ (put_file_file_only _) _ _ Hu) as [_ HnB].
  destruct (fs_makedirs d lp) as [dA|] eqn:HA.
  - destruct (fs_write dA _ _) as [|e] eqn:HwA; [done|].
    apply fs_makedirs_mkdirs in HA as HA'.
    assert (dir_at dA (segments (ledger_path lp)) = false) as HnA.
    { destruct (dir_at dA _) eqn:E; [|done].
      rewrite <-HnB. symmetry. eapply mkdirs_dir_at_mono; [exact HB'|].
      apply Hdir. revert E. unfold dir_at.
      rewrite (mkdirs_stat_other _ _ _ (segments (ledger_path lp)) HA'); [done|].
      rewrite ledger_path_segments. intros Hpre. apply prefix_length in Hpre.
      rewrite length_app in Hpre. simpl in Hpre. lia. }
    rewrite ledger_path_segments in HnA.
    destruct (update_put_ok (Bytes "") (segments lp) DOWNLOAD_LOG_FILE dA) as [x Hx];
      [by eapply mkdirs_prefix_dir|done|].
    unfold fs_write in HwA.
    rewrite ledger_path_nonempty, ledger_path_no_slash, ledger_path_segments, Hx in HwA.
    done.
  - unfold fs_makedirs in HA, HB. destruct (nonempty lp); [|done].
    destruct (mkdirs_raise_file _ _ _ HA) as (x & c & Hx & Hcx).
    rewrite <-(Hfile x Hx) in Hcx.
    by rewrite (mkdirs_prefix_no_file _ _ _ _ HB Hx) in Hcx.
Qed.

Lemma can_save_makedirs lp d p d1 :
  can_save d lp = false → fs_makedirs d p = Ok d1 → can_save d1 lp = false.
Proof.
  intros Hc Hp. apply fs_makedirs_mkdirs in Hp.
  apply (can_save_false_mono lp d d1 Hc).
  - intros x _. by eapply mkdirs_file_at.
  - by eapply mkdirs_dir_at_mono.
Qed.


(** * One iteration of the download loop *)

Ltac fin := simpl; rewrite ?app_nil_r, <-?app_assoc; simpl; try done.

Ltac red_frame := simpl; cbv beta iota delta [disk downloaded_files stats].

Ltac step :=
  match goal with
  | |- context [decide ?P] => destruct (decide P)
  | |- context [download_fileobj ?c ?b ?k] =>
      let e := fresh "err" in destruct (download_fileobj c b k) as [? [e|]]
  | |- context [fs_exists ?d ?p] => destruct (fs_exists d p) eqn:?
  | |- context [fs_makedirs ?d ?p] => destruct (fs_makedirs d p) eqn:?
  | |- context [fs_write ?d ?p ?c] => destruct (fs_write d p c) eqn:?
  | |- context [fs_remove ?d ?p] => destruct (fs_remove d p) eqn:?
  | |- context [save_download_log ?a ?b ?c] =>
      destruct (save_download_log a b c) as [[[[]|?] ?] ?] eqn:?
  | |- context [is_Exception ?e] => destruct (is_Exception e) eqn:?
  end; red_frame.

Lemma save_download_log_Exception lp s d e d' t :
  save_download_log lp s d = (Raise e, d', t) → is_Exception e = true.
Proof. intros H. by apply save_download_log_raise in H as [? _]. Qed.

Lemma download_one_iteration client bucket lp total index file fr :
  download_one client bucket lp total index file fr
  = iteration client bucket lp total index file fr.
Proof.
  unfold download_one, iteration, on_failure, cleanup, add_to_download_log,
    client_download_fileobj, lift, get_downloaded_files, set_add, stats_incr.
  destruct fr as [d dl st]. cbv zeta.
  generalize (lp +:+ "/" +:+ Key file). intros path. run_all. red_frame.
  repeat step; rewrite ?app_nil_r, <-?app_assoc; simpl; try done;
    try not_Exception;
    match goal with
    | H : save_download_log _ _ _ = (Raise _, _, _) |- _ =>
        apply save_download_log_Exception in H; congruence
    end.
Qed.

(** ** What the events of the ledger store and of the clean-up report *)

Lemma omap_sys {A} (f : event → option A) t :
  (∀ c, f (Sys c) = None) → Forall (λ e, is_sys e = true) t → omap f t = [].
Proof.
  intros Hf. induction 1 as [|e t He _ IH]; [done|].
  destruct e; try done. simpl. by rewrite Hf.
Qed.

Lemma save_download_log_sys lp s d r d' t :
  save_download_log lp s d = (r, d', t) → Forall (λ e, is_sys e = true) t.
Proof.
  rewrite save_download_log_run.
  destruct (fs_makedirs d lp); [destruct (fs_write _ _ _)|];
    intros; simplify_eq; repeat constructor.
Qed.

Lemma cleanup_sys path d r d' t :
  cleanup path d = (r, d', t) → Forall (λ e, is_sys e = true) t.
Proof.
  unfold cleanup. destruct (fs_exists d path); [destruct (fs_remove _ _)|];
    intros; simplify_eq; repeat constructor.
Qed.

(** ** A file that the iteration itself created *)

Lemma file_at_stat_raise n p e : stat n p = Raise e → file_at n p = None.
Proof. unfold file_at. by intros ->. Qed.

Lemma created_after_open d d1 d2 path dir c :
  fs_exists d path = false →
  fs_makedirs d dir = Ok d1 →
  fs_write d1 path c = Ok d2 →
  trailing_slash path = false ∧ nonempty path = true ∧
  created d d2 (segments path).
Proof.
  intros Hex Hmk Hw.
  assert (nonempty path = true) as Hn.
  { unfold fs_write in Hw. by destruct (nonempty path). }
  apply fs_write_update in Hw as [Ht Hu]. apply fs_makedirs_mkdirs in Hmk.
  split; [done|]. split; [done|].
  split; [by apply fs_exists_false_file_at|].
  split; [exists c; by eapply update_put_file_at|]. split.
  - intros q Hq. destruct (update_other _ _ (put_file_file_only c) _ _ q Hu Hq) as [-> _].
    by eapply mkdirs_file_at.
  - intros q Hq. rewrite (update_dir_at _ _ _ _ q (put_file_file_only c) Hu).
    by eapply mkdirs_dir_at_mono.
Qed.

Lemma created_write d dx p path c :
  created d dx p → p = segments path → trailing_slash path = false →
  nonempty path = true →
  created d (match fs_write dx path c with Ok d' => d' | Raise _ => dx end) p.
Proof.
  intros (Habs & Hfile & Hoth & Hdir) -> Ht Hn.
  destruct (fs_write dx path c) as [d'|] eqn:Hw; [|done].
  apply fs_write_update in Hw as [_ Hu].
  split; [done|]. split; [exists c; by eapply update_put_file_at|]. split.
  - intros q Hq. destruct (update_other _ _ (put_file_file_only c) _ _ q Hu Hq) as [-> _].
    by apply Hoth.
  - intros q Hq. rewrite (update_dir_at _ _ _ _ q (put_file_file_only c) Hu). by apply Hdir.
Qed.

Lemma created_weaken d dx dy p :
  created d dx p →
  (∀ q, file_at dy q = file_at dx q) →
  (∀ q, dir_at dx q = true → dir_at dy q = true) →
  created d dy p.
Proof.
  intros (Habs & [c Hfile] & Hoth & Hdir) Hf Hd.
  split; [done|]. split; [exists c; by rewrite Hf|]. split.
  - intros q Hq. rewrite Hf. by apply Hoth.
  - intros q Hq. by apply Hd, Hdir.
Qed.

(** The clean-up removes such a file, and the files are as before the
    iteration. *)
Lemma cleanup_created d dx path :
  created d dx (segments path) → trailing_slash path = false → nonempty path = true →
  ∃ d' tc,
    cleanup path dx = (Ok (), d', tc) ∧
    fs_exists d' path = false ∧
    (∀ q, file_at d' q = file_at d q) ∧
    (∀ q, dir_at d q = true → dir_at d' q = true) ∧
    (∀ q, dir_at dx q = true → dir_at d' q = true) ∧
    (∀ q, q ≠ segments path → file_at d' q = file_at dx q).
Proof.
  intros ([e Habs] & [c Hfile] & Hoth & Hdir) Ht Hn. unfold cleanup.
  assert (segments path ≠ []) as Hne.
  { destruct (segments_dirname_snoc path Ht Hn) as [f ->].
    by intros [_ ?]%app_eq_nil. }
  rewrite fs_exists_stat by done.
  unfold file_at in Hfile. destruct (stat dx (segments path)) as [[c'|]|] eqn:Hs; try done.
  destruct (update_unlink_file c' (segments path) dx Hne) as [d' Hd'].
  { unfold file_at. by rewrite Hs. }
  unfold fs_remove. rewrite Hn, Ht, Hd'. exists d', [Sys (SysExists path); Sys (SysRemove path)].
  split; [done|].
  pose proof (update_unlink_gone _ _ _ Hd') as Hgone.
  split; [by rewrite fs_exists_stat, Hgone|].
  assert (∀ q, q ≠ segments path → file_at d' q = file_at dx q) as Hoth'.
  { intros q Hq. by destruct (update_other _ _ unlink_file_only _ _ q Hd' Hq) as [-> _]. }
  split; [|split; [|split]]; [| | |done].
  - intros q. destruct (decide (q = segments path)) as [->|Hq].
    + by rewrite (file_at_stat_raise _ _ _ Hgone), (file_at_stat_raise _ _ _ Habs).
    + rewrite Hoth' by done. by apply Hoth.
  - intros q Hq. rewrite (update_dir_at _ _ _ _ q unlink_file_only Hd'). by apply Hdir.
  - intros q Hq. by rewrite (update_dir_at _ _ _ _ q unlink_file_only Hd').
Qed.

(** ** The iterations that do not raise *)

Lemma segments_file_path_longer lp k x :
  trailing_slash (lp +:+ "/" +:+ k) = false →
  x `prefix_of` segments lp → x ≠ segments (lp +:+ "/" +:+ k).
Proof.
  rewrite trailing_slash_join, segments_join. intros Ht Hx ->.
  destruct (nonempty k) eqn:Hn; [|done].
  destruct (segments_dirname_snoc k Ht Hn) as [f Hf]. rewrite Hf in Hx.
  apply prefix_length in Hx. rewrite !length_app in Hx. simpl in Hx. lia.
Qed.

Lemma can_save_false_files_same lp d d' :
  files_same d d' → dirs_kept d d' → can_save d lp = false → can_save d' lp = false.
Proof. intros Hf Hd Hc. apply (can_save_false_mono lp d d' Hc); [intros x _; apply Hf|apply Hd]. Qed.

Lemma can_save_of_ok lp s d d' t :
  save_download_log lp s d = (Ok (), d', t) → can_save d lp = true.
Proof.
  unfold can_save. rewrite !save_download_log_run.
  destruct (fs_makedirs d lp); [|done]. by destruct (fs_write _ _ _).
Qed.

Ltac trace_keys :=
  unfold skipped_exists_keys, downloaded_keys, requested_keys;
  rewrite ?omap_app; simpl;
  repeat (rewrite (omap_sys _ _) by (done || eauto using save_download_log_sys, cleanup_sys));
  simpl; try done.

Lemma iteration_Ok client bucket lp total index file fr fr' t :
  iteration client bucket lp total index file fr = (Ok (), fr', t) →
  logged_step index total (Key file) fr fr' t ∨
  (∃ c, (c = c_skipped_exists ∨ c = c_downloaded) ∧
        persisted_step lp (Key file) c fr fr' t) ∨
  failed_step lp (Key file) fr fr' t.
Proof.
  unfold iteration. destruct fr as [d dl st]. cbv zeta. red_frame.
  set (k := Key file). set (path := lp +:+ "/" +:+ k).
  destruct (decide (AStr k ∈ dl)) as [Hin|Hnin].
  { intros ?; simplify_eq. by left. }
  destruct (fs_exists d path) eqn:Hex.
  { destruct (save_download_log lp _ d) as [[[[]|e] d'] ts] eqn:Hs; [|done].
    intros ?; simplify_eq. right; left. exists c_skipped_exists. split; [by left|].
    destruct (save_download_log_ok _ _ _ _ _ Hs) as (Hl & _ & Hd).
    unfold persisted_step. red_frame.
    repeat split; try done; eauto using can_save_of_ok; trace_keys. }
  destruct (fs_makedirs d (os_path_dirname path)) as [d1|] eqn:Hmk; [|done].
  assert (files_same d d1 ∧ dirs_kept d d1) as [Hf1 Hd1].
  { apply fs_makedirs_mkdirs in Hmk. split; intros q.
    - by eapply mkdirs_file_at.
    - by eapply mkdirs_dir_at_mono. }
  destruct (fs_write d1 path (Bytes "")) as [d2|] eqn:Hw.
  2:{ (* open raised *)
    unfold on_failure, cleanup.
    destruct (fs_exists d1 path) eqn:Hex1.
    - destruct (fs_remove d1 path) as [d'|] eqn:Hrm; [|done]. exfalso.
      assert (nonempty path = true) as Hn by (unfold fs_remove in Hrm; by destruct (nonempty path)).
      apply fs_remove_update in Hrm as [Ht Hu].
      destruct (update_no_dir _ _ unlink_file_only _ _ Hu) as [_ Hnd].
      rewrite fs_exists_stat in Hex, Hex1 by done.
      unfold dir_at in Hnd. destruct (stat d1 (segments path)) as [[c|]|] eqn:Hs; try done.
      specialize (Hf1 (segments path)). unfold file_at in Hf1. rewrite Hs in Hf1.
      by destruct (stat d (segments path)) as [[]|].
    - intros ?; simplify_eq. right; right. unfold failed_step. red_frame.
      repeat split; try done; trace_keys; eauto using can_save_false_files_same. }
  destruct (created_after_open _ _ _ _ _ _ Hex Hmk Hw) as (Ht & Hn & Hcr).
  set (tr := download_fileobj client bucket k).
  pose proof (created_write d d2 _ path (written tr) Hcr eq_refl Ht Hn) as Hcr3.
  set (d3 := match fs_write d2 path (written tr) with Ok d3 => d3 | Raise _ => d2 end) in *.
  destruct (error tr) as [e|] eqn:He.
  { (* the transfer raised *)
    destruct (is_Exception e); [|done]. unfold on_failure.
    destruct (cleanup_created _ _ _ Hcr3 Ht Hn) as (d' & tc & Hc & _ & Hf & Hd & _ & _).
    rewrite Hc. intros ?; simplify_eq. right; right. unfold failed_step. red_frame.
    repeat split; try done; try (trace_keys; by eauto);
      eauto using can_save_false_files_same. }
  destruct (save_download_log lp _ d3) as [[[[]|e] d4] ts] eqn:Hs.
  { (* downloaded *)
    intros ?; simplify_eq. right; left. exists c_downloaded. split; [by right|].
    destruct (save_download_log_ok _ _ _ _ _ Hs) as (Hl & _ & Hd).
    destruct Hcr3 as (_ & _ & Hf3 & Hd3).
    unfold persisted_step. red_frame. repeat split; try done; try trace_keys.
    - intros q Hq. by apply Hd, Hd3.
    - destruct (can_save d lp) eqn:Hcd; [done|]. exfalso.
      apply can_save_of_ok in Hs.
      rewrite (can_save_false_mono lp d d3 Hcd) in Hs; [done| |by apply Hd3].
      intros x Hx. apply Hf3. by apply segments_file_path_longer. }
  (* the save raised *)
  destruct (save_download_log_raise _ _ _ _ _ _ Hs) as (_ & Hf4 & Hd4 & Hcs).
  pose proof (created_weaken _ _ _ _ Hcr3 Hf4 Hd4) as Hcr4.
  unfold on_failure.
  destruct (cleanup_created _ _ _ Hcr4 Ht Hn) as (d' & tc & Hc & _ & Hf & Hd & Hdx & Hoth).
  rewrite Hc. intros ?; simplify_eq. right; right. unfold failed_step. red_frame.
  repeat split; try done; try (trace_keys; by eauto).
  - right. split; [done|].
    apply (can_save_false_mono lp d3 d' Hcs).
    + intros x Hx. rewrite Hoth, Hf4; [done|].
      by apply segments_file_path_longer.
    + intros Hq. by apply Hdx, Hd4.
  - by apply can_save_false_files_same.
Qed.


(** * The download loop *)

Lemma for_enumerate_cons_Ok {St A} start (x : A) l (body : nat → A → M St unit) s s' t :
  for_enumerate start (x :: l) body s = (Ok (), s', t) →
  ∃ s1 t1 t2,
    body start x s = (Ok (), s1, t1) ∧
    for_enumerate (S start) l body s1 = (Ok (), s', t2) ∧
    t = t1 ++ t2.
Proof.
  simpl. unfold mbind, M_bind.
  destruct (body start x s) as [[[[]|e] s1] t1] eqn:E1; [|done].
  destruct (for_enumerate (S start) l body s1) as [[r s2] t2] eqn:E2.
  intros ?; simplify_eq. eauto 10.
Qed.

Section loop.
Context (client : Client) (bucket lp : string) (total_files : nat).

Abbreviation body := (download_one client bucket lp total_files).

(** Properties of the loop follow from the three kinds of step. *)
Lemma loop_Ok_ind (R : frame → frame → list event → list object_record → Prop) :
  (∀ fr, R fr fr [] []) →
  (∀ i f fs fr fr1 fr' t1 t2,
      logged_step i total_files (Key f) fr fr1 t1 ∨
      (∃ c, (c = c_skipped_exists ∨ c = c_downloaded) ∧
            persisted_step lp (Key f) c fr fr1 t1) ∨
      failed_step lp (Key f) fr fr1 t1 →
      R fr1 fr' t2 fs → R fr fr' (t1 ++ t2) (f :: fs)) →
  ∀ files start fr fr' t,
    for_enumerate start files body fr = (Ok (), fr', t) → R fr fr' t files.
Proof.
  intros Hnil Hcons files.
  induction files as [|f fs IH]; intros start fr fr' t H.
  - simpl in H. unfold mret, M_ret in H. simplify_eq. apply Hnil.
  - apply for_enumerate_cons_Ok in H as (fr1 & t1 & t2 & H1 & H2 & ->).
    rewrite download_one_iteration in H1. apply iteration_Ok in H1.
    eapply Hcons; [exact H1|]. by eapply IH.
Qed.

Lemma total_bump c s : total (bump c s) = total s + 1.
Proof. unfold total. destruct c; simpl; lia. Qed.

Lemma bump_mono c s :
  downloaded s ≤ downloaded (bump c s) ∧
  skipped_exists s ≤ skipped_exists (bump c s) ∧
  skipped_logged s ≤ skipped_logged (bump c s) ∧
  failed s ≤ failed (bump c s).
Proof. destruct c; simpl; lia. Qed.

Lemma step_stats i k fr fr1 t1 :
  logged_step i total_files k fr fr1 t1 ∨
  (∃ c, (c = c_skipped_exists ∨ c = c_downloaded) ∧
        persisted_step lp k c fr fr1 t1) ∨
  failed_step lp k fr fr1 t1 →
  ∃ c, stats fr1 = bump c (stats fr).
Proof.
  intros [(_ & -> & _) | [(c & _ & _ & H & _) | (_ & H & _)]]; eauto.
Qed.

(** Every record is counted once. *)
Lemma loop_stats files start fr fr' t :
  for_enumerate start files body fr = (Ok (), fr', t) →
  total (stats fr') = total (stats fr) + Z.of_nat (length files) ∧
  downloaded (stats fr) ≤ downloaded (stats fr') ∧
  skipped_exists (stats fr) ≤ skipped_exists (stats fr') ∧
  skipped_logged (stats fr) ≤ skipped_logged (stats fr') ∧
  failed (stats fr) ≤ failed (stats fr').
Proof.
  revert files start fr fr' t.
  apply (loop_Ok_ind (λ fr fr' _ files,
    total (stats fr') = total (stats fr) + Z.of_nat (length files) ∧
    downloaded (stats fr) ≤ downloaded (stats fr') ∧
    skipped_exists (stats fr) ≤ skipped_exists (stats fr') ∧
    skipped_logged (stats fr) ≤ skipped_logged (stats fr') ∧
    failed (stats fr) ≤ failed (stats fr'))).
  - intros fr. simpl. lia.
  - intros i f fs fr fr1 fr' t1 t2 Hstep IH.
    destruct (step_stats _ _ _ _ _ Hstep) as [c Hc].
    pose proof (total_bump c (stats fr)). pose proof (bump_mono c (stats fr)).
    rewrite Hc in IH. rewrite length_cons. lia.
Qed.

(** Directories stay. *)
Lemma loop_dirs_kept files start fr fr' t :
  for_enumerate start files body fr = (Ok (), fr', t) →
  dirs_kept (disk fr) (disk fr').
Proof.
  revert files start fr fr' t.
  apply (loop_Ok_ind (λ fr fr' _ _, dirs_kept (disk fr) (disk fr'))).
  - by intros fr q.
  - intros i f fs fr fr1 fr' t1 t2 Hstep IH q Hq. apply IH.
    destruct Hstep as [(_ & -> & _) | [(c & _ & _ & _ & _ & _ & H & _) | (_ & _ & _ & H & _)]];
      [done|by apply H|by apply H].
Qed.

Lemma requested_keys_app t1 t2 :
  requested_keys (t1 ++ t2) = requested_keys t1 ++ requested_keys t2.
Proof. apply omap_app. Qed.

Lemma downloaded_keys_app t1 t2 :
  downloaded_keys (t1 ++ t2) = downloaded_keys t1 ++ downloaded_keys t2.
Proof. apply omap_app. Qed.

Lemma skipped_exists_keys_app t1 t2 :
  skipped_exists_keys (t1 ++ t2) = skipped_exists_keys t1 ++ skipped_exists_keys t2.
Proof. apply omap_app. Qed.

(** Downloads are requested for listed keys only. *)
Lemma loop_requests files start fr fr' t :
  for_enumerate start files body fr = (Ok (), fr', t) →
  requested_keys t ⊆ Key <$> files.
Proof.
  revert files start fr fr' t.
  apply (loop_Ok_ind (λ _ _ t files, requested_keys t ⊆ Key <$> files)).
  - intros _. apply list_subseteq_nil.
  - intros i f fs fr fr1 fr' t1 t2 Hstep IH.
    rewrite requested_keys_app, fmap_cons.
    assert (requested_keys t1 ⊆ [Key f]) as H1.
    { destruct Hstep as [(_ & _ & ->) | [(c & Hc & H) | H]].
      - apply list_subseteq_nil.
      - destruct H as (_ & _ & _ & _ & _ & _ & _ & _ & ->).
        by destruct Hc as [-> | ->]; [apply list_subseteq_nil|].
      - destruct H as (_ & _ & _ & _ & _ & _ & [-> | ->] & _); [apply list_subseteq_nil|done]. }
    intros x [Hx|Hx]%elem_of_app.
    + apply H1 in Hx. apply list_elem_of_singleton in Hx as ->. by left.
    + right. by apply IH.
Qed.

Lemma on_disk_ledger_files_same d d' :
  files_same d d' → on_disk_ledger d' lp = on_disk_ledger d lp.
Proof. intros H. by rewrite !on_disk_ledger_file_at, H. Qed.

Lemma step_kinds_failed i k fr fr1 t1 :
  logged_step i total_files k fr fr1 t1 ∨
  (∃ c, (c = c_skipped_exists ∨ c = c_downloaded) ∧
        persisted_step lp k c fr fr1 t1) ∨
  failed_step lp k fr fr1 t1 →
  failed (stats fr) ≤ failed (stats fr1) ∧
  (failed (stats fr1) = failed (stats fr) →
   logged_step i total_files k fr fr1 t1 ∨
   ∃ c, (c = c_skipped_exists ∨ c = c_downloaded) ∧
        persisted_step lp k c fr fr1 t1).
Proof.
  intros [H | [H | H]].
  - split; [|by left]. destruct H as (_ & -> & _). simpl. lia.
  - split; [|by right]. destruct H as (c & [-> | ->] & _ & -> & _); simpl; lia.
  - destruct H as (_ & -> & _). simpl. split; lia.
Qed.

(** A run without failures keeps the ledger file equal to the set, and
    every key it went past is in it. *)
Lemma loop_in_sync files start fr fr' t :
  for_enumerate start files body fr = (Ok (), fr', t) →
  on_disk_ledger (disk fr) lp = downloaded_files fr →
  failed (stats fr') = failed (stats fr) →
  on_disk_ledger (disk fr') lp = downloaded_files fr' ∧
  downloaded_files fr ⊆ downloaded_files fr' ∧
  (∀ f, f ∈ files → AStr (Key f) ∈ downloaded_files fr') ∧
  downloaded (stats fr') = downloaded (stats fr) + Z.of_nat (length (downloaded_keys t)).
Proof.
  intros H. revert files start fr fr' t H.
  cut (∀ files start fr fr' t,
    for_enumerate start files body fr = (Ok (), fr', t) →
    failed (stats fr) ≤ failed (stats fr') ∧
    (on_disk_ledger (disk fr) lp = downloaded_files fr →
     failed (stats fr') = failed (stats fr) →
     on_disk_ledger (disk fr') lp = downloaded_files fr' ∧
     downloaded_files fr ⊆ downloaded_files fr' ∧
     (∀ f, f ∈ files → AStr (Key f) ∈ downloaded_files fr') ∧
     downloaded (stats fr') =
       downloaded (stats fr) + Z.of_nat (length (downloaded_keys t)))).
  { intros Hcut files start fr fr' t H. by apply (Hcut _ _ _ _ _ H). }
  apply (loop_Ok_ind (λ fr fr' t files,
    failed (stats fr) ≤ failed (stats fr') ∧
    (on_disk_ledger (disk fr) lp = downloaded_files fr →
     failed (stats fr') = failed (stats fr) →
     on_disk_ledger (disk fr') lp = downloaded_files fr' ∧
     downloaded_files fr ⊆ downloaded_files fr' ∧
     (∀ f, f ∈ files → AStr (Key f) ∈ downloaded_files fr') ∧
     downloaded (stats fr') =
       downloaded (stats fr) + Z.of_nat (length (downloaded_keys t))))).
  - intros fr. split; [lia|]. intros Hs _. split; [done|]. split; [done|].
    split; [|simpl; lia]. intros f Hf. by apply elem_of_nil in Hf.
  - intros i f fs fr fr1 fr' t1 t2 Hstep [Hle IH].
    destruct (step_kinds_failed _ _ _ _ _ Hstep) as [Hle1 Hk].
    split; [lia|]. intros Hsync Hfail.
    assert (failed (stats fr1) = failed (stats fr)) as Hf1 by lia.
    rewrite downloaded_keys_app, length_app.
    destruct (Hk Hf1) as [(Hin & -> & ->) | (c & Hc & Hnin & Hst & Hdl & Hdisk & _ & _ & _ & Hdk & _)].
    + destruct IH as (Hs' & Hsub & Hall & Hd); [done|simpl in *; lia|].
      simpl in *. split; [done|]. split; [done|]. split; [|lia].
      intros g [->|Hg]%elem_of_cons; [by apply Hsub|by apply Hall].
    + destruct IH as (Hs' & Hsub & Hall & Hd); [congruence|lia|].
      split; [done|]. split; [set_solver|]. split.
      * intros g [->|Hg]%elem_of_cons; [|by apply Hall]. apply Hsub. set_solver.
      * rewrite Hd, Hst, Hdk. destruct Hc as [-> | ->]; simpl; lia.
Qed.

(** The ledger on disk grows by the keys reported as downloaded or as
    skipped because the file exists, and by nothing else. *)
Lemma loop_ledger files start fr fr' t :
  for_enumerate start files body fr = (Ok (), fr', t) →
  downloaded_files fr = on_disk_ledger (disk fr) lp ∨ can_save (disk fr) lp = false →
  on_disk_ledger (disk fr') lp
  = on_disk_ledger (disk fr) lp ∪ keys_set (downloaded_keys t ++ skipped_exists_keys t).
Proof.
  revert files start fr fr' t.
  apply (loop_Ok_ind (λ fr fr' t files,
    downloaded_files fr = on_disk_ledger (disk fr) lp ∨ can_save (disk fr) lp = false →
    on_disk_ledger (disk fr') lp
    = on_disk_ledger (disk fr) lp
      ∪ keys_set (downloaded_keys t ++ skipped_exists_keys t))).
  - intros fr _. unfold keys_set. simpl. set_solver.
  - intros i f fs fr fr1 fr' t1 t2 Hstep IH HJ.
    rewrite downloaded_keys_app, skipped_exists_keys_app.
    destruct Hstep as [(Hin & -> & ->) | [(c & Hc & H) | H]].
    + rewrite IH by done. simpl. done.
    + destruct H as (Hnin & Hst & Hdl & Hdisk & _ & Hcs & Hsk & Hdk & _).
      destruct HJ as [HJ|HJ]; [|congruence].
      rewrite IH by (left; congruence).
      rewrite Hdisk, Hsk, Hdk, <-HJ. unfold keys_set.
      destruct Hc as [-> | ->]; simpl; rewrite !fmap_app, !list_to_set_app_L;
        simpl; set_solver.
    + destruct H as (Hnin & Hst & Hfs & _ & Hsk & Hdk & _ & Hdl & Hcs).
      pose proof (on_disk_ledger_files_same _ _ Hfs) as Heq.
      rewrite IH.
      * rewrite Heq, Hsk, Hdk. done.
      * destruct HJ as [HJ|HJ]; [|right; by apply Hcs].
        destruct Hdl as [Hdl | [_ Hdl]]; [left; congruence|by right].
Qed.
End loop.


(** * The directory materializer *)

Lemma dir_at_prefix p : ∀ n q, dir_at n p = true → q `prefix_of` p → dir_at n q = true.
Proof.
  induction p as [|s p IH]; intros n q Hd Hq.
  - by apply prefix_nil_inv in Hq as ->.
  - destruct q as [|s' q].
    + unfold dir_at in *. simpl in *. by destruct n as [|es].
    + apply prefix_cons_inv_1 in Hq as Hs. subst s'. apply prefix_cons_inv_2 in Hq.
      unfold dir_at in *. simpl in *. destruct n as [|es]; [done|].
      destruct (es !! s) as [m|]; [|done]. by apply (IH m q).
Qed.

Lemma create_directory_run lp o d :
  create_directory lp o d =
  match fs_makedirs d (lp +:+ "/" +:+ Key o) with
  | Ok d' =>
      (Ok (), d', [Log INFO (msg_creating_directory (lp +:+ "/" +:+ Key o));
                   Sys (SysMakedirs (lp +:+ "/" +:+ Key o))])
  | Raise e =>
      (Raise e, d, [Log INFO (msg_creating_directory (lp +:+ "/" +:+ Key o));
                    Sys (SysMakedirs (lp +:+ "/" +:+ Key o))])
  end.
Proof.
  unfold create_directory. cbv zeta. generalize (lp +:+ "/" +:+ Key o). intros p.
  run_all. by destruct (fs_makedirs d p).
Qed.

(** The [try] of [create_directories] changes nothing: its handler raises
    what it caught. *)
Lemma create_directories_run dirs lp d :
  create_directories dirs lp d =
  (os_makedirs lp;; for_each dirs (create_directory lp)) d.
Proof.
  unfold create_directories, try_except, raise.
  destruct ((os_makedirs lp;; for_each dirs (create_directory lp)) d) as [[[[]|e] d'] t];
    [done|]. destruct (is_Exception e); by rewrite ?app_nil_r.
Qed.

Lemma bind_run {St A B} (m : M St A) (k : A → M St B) s :
  (m ≫= k) s =
  match m s with
  | (Ok a, s', t) => match k a s' with (r, s'', t') => (r, s'', t ++ t') end
  | (Raise e, s', t) => (Raise e, s', t)
  end.
Proof. done. Qed.

Lemma os_makedirs_run p d :
  os_makedirs p d =
  match fs_makedirs d p with
  | Ok d' => (Ok (), d', [Sys (SysMakedirs p)])
  | Raise e => (Raise e, d, [Sys (SysMakedirs p)])
  end.
Proof. run_all. by destruct (fs_makedirs d p). Qed.

Lemma for_each_cons_run {St A} (x : A) l (body : A → M St unit) s :
  for_each (x :: l) body s =
  match body x s with
  | (Ok _, s', t) =>
      match for_each l body s' with (r, s'', t') => (r, s'', t ++ t') end
  | (Raise e, s', t) => (Raise e, s', t)
  end.
Proof. done. Qed.

Lemma for_each_app_Ok {St A} (l1 l2 : list A) (body : A → M St unit) s s1 t1 :
  for_each l1 body s = (Ok (), s1, t1) →
  for_each (l1 ++ l2) body s =
  match for_each l2 body s1 with (r, s2, t2) => (r, s2, t1 ++ t2) end.
Proof.
  revert s t1. induction l1 as [|x l1 IH]; intros s t1 H.
  - simpl in H. unfold mret, M_ret in H. simplify_eq. simpl.
    by destruct (for_each l2 body s1) as [[r s2] t2].
  - rewrite <-app_comm_cons, for_each_cons_run. rewrite for_each_cons_run in H.
    destruct (body x s) as [[[[]|e] s'] t]; [|done].
    destruct (for_each l1 body s') as [[r' s''] t'] eqn:E. simplify_eq.
    rewrite (IH _ _ E). destruct (for_each l2 body s1) as [[r s2] t2].
    by rewrite app_assoc.
Qed.

Lemma for_each_directories_Ok lp dirs : ∀ d d' t,
  for_each dirs (create_directory lp) d = (Ok (), d', t) →
  dirs_kept d d' ∧ files_same d d' ∧ requested_keys t = [] ∧
  ∀ o, o ∈ dirs → dir_at d' (segments (lp +:+ "/" +:+ Key o)) = true.
Proof.
  induction dirs as [|o dirs IH]; intros d d' t H.
  - simpl in H. unfold mret, M_ret in H. simplify_eq.
    split; [by intros q|]. split; [by intros q|]. split; [done|].
    intros o Ho. by apply elem_of_nil in Ho.
  - rewrite for_each_cons_run, create_directory_run in H.
    destruct (fs_makedirs d _) as [d1|] eqn:Hmk; [|done].
    destruct (for_each dirs _ d1) as [[r d2] t2] eqn:E. simplify_eq.
    destruct (IH _ _ _ E) as (Hk & Hf & Hr & Hall).
    apply fs_makedirs_mkdirs in Hmk.
    split; [|split; [|split]].
    + intros q Hq. apply Hk. by eapply mkdirs_dir_at_mono.
    + intros q. rewrite Hf. by eapply mkdirs_file_at.
    + done.
    + intros o' [->|Ho]%elem_of_cons; [|by apply Hall].
      apply Hk. by eapply mkdirs_prefix_dir.
Qed.

Lemma create_directories_Ok dirs lp d d' t :
  create_directories dirs lp d = (Ok (), d', t) →
  dirs_kept d d' ∧ files_same d d' ∧ requested_keys t = [] ∧
  nonempty lp = true ∧
  dir_at d' (segments lp) = true ∧
  ∀ o, o ∈ dirs → dir_at d' (segments (lp +:+ "/" +:+ Key o)) = true.
Proof.
  rewrite create_directories_run, bind_run, os_makedirs_run.
  destruct (fs_makedirs d lp) as [d1|] eqn:Hmk; [|done].
  destruct (for_each dirs _ d1) as [[r d2] t2] eqn:E. intros ?; simplify_eq.
  destruct (for_each_directories_Ok _ _ _ _ _ E) as (Hk & Hf & Hr & Hall).
  assert (nonempty lp = true) as Hn by (unfold fs_makedirs in Hmk; by destruct (nonempty lp)).
  apply fs_makedirs_mkdirs in Hmk.
  split; [|split; [|split; [|split; [|split]]]]; try done.
  - intros q Hq. apply Hk. by eapply mkdirs_dir_at_mono.
  - intros q. rewrite Hf. by eapply mkdirs_file_at.
  - apply Hk. by eapply mkdirs_prefix_dir.
Qed.

Lemma fs_makedirs_id d p :
  nonempty p = true → dir_at d (segments p) = true → fs_makedirs d p = Ok d.
Proof. intros Hn Hd. unfold fs_makedirs. rewrite Hn. by apply mkdirs_id. Qed.

Lemma for_each_directories_id lp dirs d :
  (∀ o, o ∈ dirs → dir_at d (segments (lp +:+ "/" +:+ Key o)) = true) →
  ∃ t, for_each dirs (create_directory lp) d = (Ok (), d, t).
Proof.
  induction dirs as [|o dirs IH]; intros H; [by eexists|].
  rewrite for_each_cons_run, create_directory_run.
  rewrite fs_makedirs_id; [|apply nonempty_join|apply H; by left].
  destruct IH as [t ->]; [intros o' Ho; apply H; by right|]. by eexists.
Qed.

Lemma create_directories_id dirs lp d :
  nonempty lp = true → dir_at d (segments lp) = true →
  (∀ o, o ∈ dirs → dir_at d (segments (lp +:+ "/" +:+ Key o)) = true) →
  ∃ t, create_directories dirs lp d = (Ok (), d, t).
Proof.
  intros Hn Hd Hall. rewrite create_directories_run, bind_run, os_makedirs_run.
  rewrite fs_makedirs_id by done.
  destruct (for_each_directories_id lp dirs d Hall) as [t ->]. by eexists.
Qed.

(** C8. [create_directories] makes the root and then, for every marker,
    [root/Key] with every directory above it; directories that are there
    already are no error and the tree is left as it is; an error of
    [os.makedirs], on the root or on a marker, comes out of
    [create_directories] as it was raised, and no later marker is tried. *)
Theorem create_directories_spec (dirs : list object_record) (lp : string) (d : node) :
  (∀ d' t, create_directories dirs lp d = (Ok (), d', t) →
     (∀ q, q `prefix_of` segments lp → dir_at d' q = true) ∧
     (∀ o q, o ∈ dirs → q `prefix_of` segments (lp +:+ "/" +:+ Key o) →
             dir_at d' q = true)) ∧
  (nonempty lp = true → dir_at d (segments lp) = true →
   (∀ o, o ∈ dirs → dir_at d (segments (lp +:+ "/" +:+ Key o)) = true) →
   ∃ t, create_directories dirs lp d = (Ok (), d, t)) ∧
  (∀ e, fs_makedirs d lp = Raise e →
     create_directories dirs lp d = (Raise e, d, [Sys (SysMakedirs lp)])) ∧
  (∀ pre o post d1 t1 e,
     dirs = pre ++ o :: post →
     create_directories pre lp d = (Ok (), d1, t1) →
     fs_makedirs d1 (lp +:+ "/" +:+ Key o) = Raise e →
     create_directories dirs lp d =
       (Raise e, d1,
        t1 ++ [Log INFO (msg_creating_directory (lp +:+ "/" +:+ Key o));
               Sys (SysMakedirs (lp +:+ "/" +:+ Key o))])).
Proof.
  split; [|split; [|split]].
  - intros d' t H. destruct (create_directories_Ok _ _ _ _ _ H) as (_ & _ & _ & _ & Hr & Hall).
    split.
    + intros q Hq. by eapply dir_at_prefix.
    + intros o q Ho Hq. eapply dir_at_prefix; [by apply Hall|done].
  - apply create_directories_id.
  - intros e He. by rewrite create_directories_run, bind_run, os_makedirs_run, He.
  - intros pre o post d1 t1 e -> Hpre He.
    rewrite create_directories_run, bind_run, os_makedirs_run in Hpre |- *.
    destruct (fs_makedirs d lp) as [d0|]; [|done].
    destruct (for_each pre _ d0) as [[r d2] t2] eqn:E. simplify_eq.
    rewrite (for_each_app_Ok _ _ _ _ _ _ E), for_each_cons_run, create_directory_run, He.
    done.
Qed.

Lemma create_directories_spec_witness :
  ∃ d' t,
    create_directories [record_of "d/"; record_of "d/e/"] "out" empty_dir = (Ok (), d', t) ∧
    dir_at d' ["out"] = true ∧
    dir_at d' ["out"; "d"; "e"] = true ∧
    ∃ t', create_directories [record_of "d/"; record_of "d/e/"] "out" d' = (Ok (), d', t').
Proof.
  eexists _, _.
  match goal with |- ?E ∧ _ => assert E as H by (vm_compute; reflexivity) end.
  split; [exact H|].
  destruct (create_directories_spec [record_of "d/"; record_of "d/e/"] "out" empty_dir)
    as (Hmade & _).
  destruct (Hmade _ _ H) as [Hroot Hall].
  split; [apply Hroot; reflexivity|].
  split; [apply (Hall (record_of "d/e/")); [by right; left|reflexivity]|].
  eexists. vm_compute. reflexivity.
Defined.

(** * The partition of the listing *)

Lemma last_char_empty k : last_char k = Raise IndexError ↔ k = "".
Proof.
  unfold last_char. destruct k as [|c k]; [done|].
  simpl. rewrite last_cons. by destruct (last (list_ascii_of_string k)).
Qed.

Lemma last_char_cases k : k = "" ∨ ∃ c, last_char k = Ok c.
Proof.
  unfold last_char. destruct k as [|c k]; [by left|right].
  simpl. rewrite last_cons. destruct (last (list_ascii_of_string k)); eauto.
Qed.

Lemma select_Ok keep objects :
  (∀ o, o ∈ objects → Key o ≠ "") →
  select keep objects = Ok (List.filter (λ o, keep_key keep (Key o)) objects).
Proof.
  induction objects as [|o objects IH]; intros H; [done|].
  simpl. unfold keep_key at 1.
  destruct (last_char_cases (Key o)) as [He|[c Hc]]; [by destruct (H o); [left|]|].
  rewrite Hc, IH; [done|]. intros o' Ho'. apply H. by right.
Qed.

Lemma select_Raise keep objects e :
  select keep objects = Raise e → e = IndexError ∧ ∃ o, o ∈ objects ∧ Key o = "".
Proof.
  induction objects as [|o objects IH]; [done|]. simpl.
  destruct (last_char_cases (Key o)) as [He|[c Hc]].
  - apply last_char_empty in He as He'. rewrite He'. intros ?; simplify_eq.
    split; [done|]. exists o. split; [by left|done].
  - rewrite Hc. destruct (select keep objects) as [|e'] eqn:E; [done|].
    intros ?; simplify_eq. destruct (IH eq_refl) as [-> (o' & Ho' & Hk)].
    split; [done|]. exists o'. split; [by right|done].
Qed.

Lemma select_empty keep objects :
  (∃ o, o ∈ objects ∧ Key o = "") → select keep objects = Raise IndexError.
Proof.
  intros (o & Ho & Hk). destruct (select keep objects) as [l|e] eqn:E.
  - exfalso. revert l E. induction objects as [|o' objects IH]; intros l E.
    + by apply elem_of_nil in Ho.
    + simpl in E. apply elem_of_cons in Ho as [->|Ho].
      * rewrite Hk in E. done.
      * destruct (last_char (Key o')); [|done].
        destruct (select keep objects); [|done]. by eapply IH.
  - by apply select_Raise in E as [-> _].
Qed.

(** C10. The partition reads the last character of every key: with no
    empty key it is the two filters, and a listing with an empty key makes
    it raise [IndexError], first thing in [init_script]'s work on the
    listing, before any directory is made or file fetched. *)
Theorem partition_needs_nonempty_keys (keep : ascii → bool) (objects : list object_record) :
  ((∀ o, o ∈ objects → Key o ≠ "") →
   select keep objects = Ok (List.filter (λ o, keep_key keep (Key o)) objects)) ∧
  (select keep objects = Raise IndexError ↔ ∃ o, o ∈ objects ∧ Key o = "") ∧
  ((∃ o, o ∈ objects ∧ Key o = "") →
   ∀ client bucket lp d,
     export_objects client objects bucket lp d = (Raise IndexError, d, [])) ∧
  select keep [ObjectRecord "a" 1 "x"; ObjectRecord "" 0 "y"] = Raise IndexError.
Proof.
  split; [apply select_Ok|]. split; [|split; [|done]].
  - split; [|apply select_empty]. intros H. by apply select_Raise in H as [_ ?].
  - intros H client bucket lp d. unfold export_objects.
    rewrite bind_run. unfold of_result. by rewrite (select_empty _ _ H).
Qed.

Lemma partition_needs_nonempty_keys_witness :
  select is_file_char [record_of "a"; record_of "d/"; record_of "d/b"]
    = Ok [record_of "a"; record_of "d/b"] ∧
  select is_slash [record_of "a"; record_of ""; record_of "d/"] = Raise IndexError.
Proof.
  split.
  - destruct (partition_needs_nonempty_keys is_file_char
                [record_of "a"; record_of "d/"; record_of "d/b"]) as [H _].
    rewrite H; [reflexivity|].
    intros o Ho. repeat (apply elem_of_cons in Ho as [->|Ho]; [done|]).
    by apply elem_of_nil in Ho.
  - destruct (partition_needs_nonempty_keys is_slash
                [record_of "a"; record_of ""; record_of "d/"]) as (_ & H & _).
    apply H. exists (record_of ""). split; [by right; left|reflexivity].
Defined.

(** * The ledger store: loading *)

Lemma fs_read_exists d p c : fs_read d p = Ok c → fs_exists d p = true.
Proof. unfold fs_read, fs_exists. by destruct (fs_lookup d p) as [[]|]. Qed.

Lemma get_download_log_cases lp d :
  get_download_log lp d =
  if fs_exists d (ledger_path lp) then
    match fs_read d (ledger_path lp) with
    | Ok c =>
        match decode_ledger c with
        | Ok s =>
            (Ok s, d, [Sys (SysExists (ledger_path lp)); Sys (SysOpen (ledger_path lp) "r")])
        | Raise e =>
            (Ok ∅, d, [Sys (SysExists (ledger_path lp)); Sys (SysOpen (ledger_path lp) "r");
                       Log WARNING (msg_could_not_read_log e)])
        end
    | Raise e =>
        (Ok ∅, d, [Sys (SysExists (ledger_path lp)); Sys (SysOpen (ledger_path lp) "r");
                   Log WARNING (msg_could_not_read_log e)])
    end
  else (Ok ∅, d, [Sys (SysExists (ledger_path lp))]).
Proof.
  unfold get_download_log, decode_ledger. fold (ledger_path lp).
  generalize (ledger_path lp). intros p. run_all.
  destruct (fs_exists d p); [|done]. simpl.
  destruct (fs_read d p) as [c|e] eqn:Hr; simpl.
  - destruct (json_load c) as [j|e] eqn:Hj; simpl.
    + destruct (py_get j _ _) as [v|e] eqn:Hg; simpl.
      * destruct (py_set v) as [s|e] eqn:Hs; simpl; [done|].
        by rewrite (py_set_Exception _ _ Hs).
      * by rewrite (py_get_Exception _ _ _ _ Hg).
    + by rewrite (json_load_Exception _ _ Hj).
  - by rewrite (fs_read_Exception _ _ _ Hr).
Qed.

Lemma decode_ledger_keys members ks :
  members_get "downloaded_files" members = Some (JArr (JStr <$> ks)) →
  decode_ledger (Json (JObj members)) = Ok (keys_set ks).
Proof.
  intros H. unfold decode_ledger. simpl. rewrite H. simpl.
  assert (py_hashables (JStr <$> ks) = Ok (AStr <$> ks)) as ->; [|done].
  clear H. induction ks as [|k ks IH]; [done|]. rewrite !fmap_cons. simpl. by rewrite IH.
Qed.



(** * The object lister *)

Lemma list_pages_served client bucket token pages outcome :
  served client bucket token pages outcome →
  ∀ fuel acc t d, (length pages < fuel)%nat →
  ∃ t', list_pages fuel client bucket token acc t d =
        Some (match outcome with
              | None => Ok (acc ++ concat pages)
              | Some e => Raise e
              end, d, t').
Proof.
  induction 1 as [token e He|token r Hr Hlast|token r pages outcome Hr Hmore _ IH];
    intros fuel acc t d Hfuel.
  - destruct fuel as [|fuel]; [simpl in Hfuel; lia|]. simpl. rewrite He. by eexists.
  - destruct fuel as [|fuel]; [simpl in Hfuel; lia|]. simpl. rewrite Hr, Hlast.
    destruct (Contents r); simpl; rewrite ?app_nil_r; by eexists.
  - destruct fuel as [|fuel]; [simpl in Hfuel; lia|]. simpl. rewrite Hr, Hmore.
    simpl in Hfuel.
    destruct (Contents r) as [page|]; simpl.
    + edestruct (IH fuel (acc ++ page)) as [t' ->]; [lia|].
      rewrite <-app_assoc. by eexists.
    + edestruct (IH fuel acc) as [t' ->]; [lia|]. by eexists.
Qed.

Lemma list_objects_in_bucket_served client bucket pages outcome fuel d :
  served client bucket None pages outcome → (length pages < fuel)%nat →
  ∃ t, list_objects_in_bucket fuel client bucket d =
       Some (match outcome with
             | None => Ok (concat pages)
             | Some e => Raise e
             end, d, t).
Proof.
  intros Hs Hfuel. unfold list_objects_in_bucket.
  destruct (list_pages_served _ _ _ _ _ Hs fuel [] [] d Hfuel) as [t ->].
  destruct outcome; by eexists.
Qed.

(** The listing does not touch the disk and does not depend on it. *)
Lemma list_pages_disk client bucket fuel : ∀ token acc t d d',
  list_pages fuel client bucket token acc t d' =
  match list_pages fuel client bucket token acc t d with
  | Some (r, _, t') => Some (r, d', t')
  | None => None
  end.
Proof.
  induction fuel as [|fuel IH]; intros token acc t d d'; [done|]. simpl.
  destruct (list_objects_v2 client bucket (sent_token token)) as [r|e]; [|done].
  destruct (truthy_flag (IsTruncated r)); [|done]. apply IH.
Qed.

Lemma list_objects_in_bucket_disk client bucket fuel d d' :
  list_objects_in_bucket fuel client bucket d' =
  match list_objects_in_bucket fuel client bucket d with
  | Some (r, _, t') => Some (r, d', t')
  | None => None
  end.
Proof.
  unfold list_objects_in_bucket. rewrite (list_pages_disk _ _ _ _ _ _ d d').
  by destruct (list_pages fuel client bucket None [] [] d) as [[[[?|?] ?] ?]|].
Qed.

Lemma list_objects_in_bucket_same_disk client bucket fuel d r d' t :
  list_objects_in_bucket fuel client bucket d = Some (r, d', t) → d' = d.
Proof.
  rewrite (list_objects_in_bucket_disk _ _ _ d d).
  destruct (list_objects_in_bucket fuel client bucket d) as [[[? ?] ?]|]; intros; by simplify_eq.
Qed.

Lemma list_objects_in_bucket_requests client bucket fuel d r d' t :
  list_objects_in_bucket fuel client bucket d = Some (r, d', t) →
  requested_keys t = [].
Proof.
  unfold list_objects_in_bucket.
  assert (∀ fuel token acc t0 r d' t,
            list_pages fuel client bucket token acc t0 d = Some (r, d', t) →
            requested_keys t0 = [] → requested_keys t = []) as Hp.
  { clear. induction fuel as [|fuel IH]; intros token acc t0 r d' t; [done|]. simpl.
    destruct (list_objects_v2 client bucket (sent_token token)) as [resp|e].
    - destruct (truthy_flag (IsTruncated resp)).
      + intros H H0. eapply IH; [exact H|].
        destruct (Contents resp); rewrite ?requested_keys_app, H0; done.
      + intros ? H0; simplify_eq.
        destruct (Contents resp); rewrite ?requested_keys_app, H0; done.
    - intros ? H0; simplify_eq. by rewrite requested_keys_app, H0. }
  destruct (list_pages fuel client bucket None [] [] d) as [[[[l|e] d1] t1]|] eqn:E; [| |done].
  - intros ?; simplify_eq. rewrite requested_keys_app. by rewrite (Hp _ _ _ _ _ _ _ E).
  - intros ?; simplify_eq. by eapply Hp.
Qed.




(** * The download orchestrator *)

Lemma get_download_log_quiet lp d :
  ∃ t, get_download_log lp d = (Ok (on_disk_ledger d lp), d, t) ∧
       requested_keys t = [] ∧ downloaded_keys t = [] ∧ skipped_exists_keys t = [].
Proof.
  unfold on_disk_ledger. rewrite get_download_log_cases.
  destruct (fs_exists d (ledger_path lp)); [|by eexists].
  destruct (fs_read d (ledger_path lp)) as [c|e]; [|by eexists].
  destruct (decode_ledger c); by eexists.
Qed.

(** The [KeyboardInterrupt] handler raises again: a loop that returned did
    so without it. *)
Lemma download_loop_Ok client files bucket lp total_files start fr fr' t :
  download_loop client files bucket lp total_files start fr = (Ok (), fr', t) ↔
  for_enumerate start files (download_one client bucket lp total_files) fr = (Ok (), fr', t).
Proof.
  unfold download_loop, try_except.
  destruct (for_enumerate start files _ fr) as [[[[]|e] fr1] t1]; [done|].
  destruct (is_KeyboardInterrupt e); [|done].
  unfold LOGGER_warning, LOGGER_info, emit, get_downloaded_files, raise, mbind, M_bind.
  simpl. split; intros; simplify_eq.
Qed.

Lemma download_objects_Ok client files bucket lp d s d' t :
  download_objects client files bucket lp d = (Ok s, d', t) ↔
  ∃ fr' t1 t2,
    get_download_log lp d = (Ok (on_disk_ledger d lp), d, t1) ∧
    for_enumerate 1 files (download_one client bucket lp (length files))
      (Frame d (on_disk_ledger d lp) zero_stats) = (Ok (), fr', t2) ∧
    s = stats fr' ∧ d' = disk fr' ∧ t = t1 ++ t2.
Proof.
  unfold download_objects. destruct (get_download_log_run lp d) as [t1 Hg]. rewrite Hg.
  destruct (download_loop client files bucket lp (length files) 1 _)
    as [[[[]|e] fr1] t2] eqn:Hl.
  - apply download_loop_Ok in Hl. split.
    + intros ?; simplify_eq. by exists fr1, t1, t2.
    + intros (fr' & t1' & t2' & ? & Hf & -> & -> & ->). rewrite Hl in Hf. by simplify_eq.
  - split; [done|]. intros (fr' & t1' & t2' & _ & Hf & _).
    apply download_loop_Ok in Hf. rewrite Hl in Hf. done.
Qed.

(** The counters after a loop are the counters before it, incremented once
    for every record. *)
Lemma loop_counters client bucket lp total_files files start fr fr' t :
  for_enumerate start files (download_one client bucket lp total_files) fr = (Ok (), fr', t) →
  ∃ cs : list counter,
    length cs = length files ∧ stats fr' = foldl (λ s c, bump c s) (stats fr) cs.
Proof.
  revert files start fr fr' t.
  apply (loop_Ok_ind client bucket lp total_files (λ fr fr' _ files,
    ∃ cs : list counter,
      length cs = length files ∧ stats fr' = foldl (λ s c, bump c s) (stats fr) cs)).
  - intros fr. by exists [].
  - intros i f fs fr fr1 fr' t1 t2 Hstep (cs & Hlen & Hcs).
    destruct (step_stats _ _ _ _ _ _ _ Hstep) as [c Hc].
    exists (c :: cs). split; [simpl; by rewrite Hlen|]. simpl. by rewrite <-Hc.
Qed.

Lemma bump_inj c c' s : bump c s = bump c' s → c = c'.
Proof. destruct s, c, c'; simpl; intros H; try done; injection H; lia. Qed.

(** C9. A run of [download_objects] that returns has counted every record
    of [files] once: the counters are the zero counters incremented once per
    record, each time in exactly one place; so they add up to the number of
    records and none is negative. *)
Theorem download_objects_counts (client : Client) (files : list object_record)
    (bucket lp : string) (d d' : node) (s : Stats) (t : list event) :
  download_objects client files bucket lp d = (Ok s, d', t) →
  downloaded s + skipped_logged s + skipped_exists s + failed s = Z.of_nat (length files) ∧
  0 ≤ downloaded s ∧ 0 ≤ skipped_logged s ∧ 0 ≤ skipped_exists s ∧ 0 ≤ failed s ∧
  (∃ cs : list counter,
     length cs = length files ∧ s = foldl (λ s c, bump c s) zero_stats cs) ∧
  (∀ s0 c c', bump c s0 = bump c' s0 → c = c').
Proof.
  intros (fr' & t1 & t2 & _ & Hloop & -> & _ & _)%download_objects_Ok.
  pose proof (loop_stats _ _ _ _ _ _ _ _ _ Hloop) as (Ht & H1 & H2 & H3 & H4).
  unfold total in Ht. simpl in *.
  repeat split; try lia.
  - by apply loop_counters in Hloop.
  - intros s0 c c'. apply bump_inj.
Qed.

Lemma download_objects_counts_witness :
  ∃ s d' t,
    download_objects (bucket_client ["a"]) [record_of "a"; record_of "d/b"; record_of "a"]
      "bk" "out" empty_dir = (Ok s, d', t) ∧
    s = MkStats 1 0 0 2 ∧
    downloaded s + skipped_logged s + skipped_exists s + failed s = 3.
Proof.
  eexists _, _, _.
  split; [vm_compute; reflexivity|]. split; [reflexivity|].
  refine (proj1 (download_objects_counts (bucket_client ["a"])
                   [record_of "a"; record_of "d/b"; record_of "a"]
                   "bk" "out" empty_dir _ _ _ _)).
  vm_compute. reflexivity.
Defined.

(** * A download that raises *)

Lemma is_file_key_path lp k :
  is_file_key k = true →
  nonempty (lp +:+ "/" +:+ k) = true ∧ trailing_slash (lp +:+ "/" +:+ k) = false.
Proof.
  intros H. split; [apply nonempty_join|]. rewrite trailing_slash_join.
  unfold is_file_key, last_char, is_file_char in H. unfold trailing_slash.
  destruct k as [|c k]; [done|]. simpl nonempty. cbv iota.
  destruct (last (list_ascii_of_string (String c k))); [|done].
  by apply negb_true_iff in H.
Qed.

(** After [os.makedirs] on its [dirname], a path that did not exist and does
    not end in a slash can be opened for writing. *)
Lemma open_succeeds d d1 path c :
  nonempty path = true → trailing_slash path = false →
  fs_exists d path = false →
  fs_makedirs d (os_path_dirname path) = Ok d1 →
  ∃ d2, fs_write d1 path c = Ok d2.
Proof.
  intros Hn Ht Hex Hmk. apply fs_makedirs_mkdirs in Hmk.
  destruct (segments_dirname_snoc path Ht Hn) as [f Hf].
  destruct (fs_exists_false_file_at _ _ Hex Ht Hn) as [e He].
  unfold fs_write. rewrite Hn, Ht, Hf. apply update_put_ok.
  - by eapply mkdirs_prefix_dir.
  - unfold dir_at. rewrite (mkdirs_stat_other _ _ _ _ Hmk).
    + rewrite <-Hf. by rewrite He.
    + intros Hp%prefix_length. rewrite length_app in Hp. simpl in Hp. lia.
Qed.



(** * The run controller *)

Lemma omap_none {A B} (f : A → option B) (l : list A) :
  Forall (λ x, f x = None) l → omap f l = [].
Proof. induction 1 as [|x l Hx _ IH]; [done|]. simpl. by rewrite Hx. Qed.

Lemma no_io_requested t : no_io t → requested_keys t = [].
Proof.
  intros H. apply omap_none. eapply Forall_impl; [exact H|].
  by intros [| |l m] He.
Qed.

Lemma summary_run s files d :
  ∃ ts, summary s files d = (Ok (), d, ts) ∧ no_io ts.
Proof.
  unfold summary. run_all. destruct (bool_decide (failed s > 0)); simpl;
    (eexists; split; [done|]); repeat constructor.
Qed.

Lemma export_objects_run client objects bucket lp d :
  export_objects client objects bucket lp d =
  match select is_file_char objects with
  | Raise e => (Raise e, d, [])
  | Ok files =>
      match select is_slash objects with
      | Raise e => (Raise e, d, [])
      | Ok directories =>
          match create_directories directories lp d with
          | (Raise e, dc, tc) => (Raise e, dc, Log INFO (msg_total_files (length files)) :: tc)
          | (Ok _, dc, tc) =>
              match download_objects client files bucket lp dc with
              | (Raise e, dd, td) =>
                  (Raise e, dd, Log INFO (msg_total_files (length files)) :: tc ++ td)
              | (Ok s, dd, td) =>
                  (Ok s, dd,
                   Log INFO (msg_total_files (length files))
                     :: tc ++ td ++ (summary s files dd).2)
              end
          end
      end
  end.
Proof.
  unfold export_objects. rewrite bind_run. unfold of_result at 1.
  destruct (select is_file_char objects) as [files|e]; [|done].
  rewrite bind_run. unfold of_result at 1.
  destruct (select is_slash objects) as [directories|e]; [|done]. simpl.
  rewrite bind_run. unfold LOGGER_info at 1, emit at 1.
  rewrite bind_run.
  destruct (create_directories directories lp d) as [[[[]|e] dc] tc]; [|done].
  rewrite bind_run.
  destruct (download_objects client files bucket lp dc) as [[[s|e] dd] td]; [|done].
  rewrite bind_run. destruct (summary_run s files dd) as (ts & -> & _). simpl.
  unfold mret, M_ret. by rewrite ?app_nil_r.
Qed.

Lemma select_Ok_inv keep objects l :
  select keep objects = Ok l →
  (∀ o, o ∈ objects → Key o ≠ "") ∧
  l = List.filter (λ o, keep_key keep (Key o)) objects.
Proof.
  intros H.
  assert (∀ o, o ∈ objects → Key o ≠ "") as Hne.
  { intros o Ho Hk. rewrite (select_empty keep objects) in H; [done|]. by exists o. }
  split; [done|]. rewrite (select_Ok _ _ Hne) in H. by simplify_eq.
Qed.

Lemma marker_or_file k : k ≠ "" → is_marker_key k = negb (is_file_key k).
Proof.
  intros Hk. unfold is_marker_key, is_file_key, is_file_char.
  destruct (last_char_cases k) as [?|[c ->]]; [done|]. by rewrite negb_involutive.
Qed.

Lemma partition_length (objects : list object_record) :
  (∀ o, o ∈ objects → Key o ≠ "") →
  (length (List.filter (λ o, is_file_key (Key o)) objects)
   + length (List.filter (λ o, is_marker_key (Key o)) objects)
   = length objects)%nat.
Proof.
  induction objects as [|o objects IH]; intros H; [done|].
  simpl. rewrite (marker_or_file (Key o)) by (apply H; by left).
  assert (∀ o', o' ∈ objects → Key o' ≠ "") as H' by (intros o' Ho'; apply H; by right).
  specialize (IH H').
  destruct (is_file_key (Key o)); simpl; lia.
Qed.

Lemma download_objects_requests client files bucket lp d s d' t :
  download_objects client files bucket lp d = (Ok s, d', t) →
  requested_keys t ⊆ Key <$> files ∧ dirs_kept d d' ∧
  total s = Z.of_nat (length files).
Proof.
  intros (fr' & t1 & t2 & Hg & Hloop & -> & -> & ->)%download_objects_Ok.
  destruct (get_download_log_quiet lp d) as (t1' & Hg' & Hr & _).
  rewrite Hg in Hg'. simplify_eq.
  rewrite requested_keys_app, Hr. simpl. split; [by eapply loop_requests|].
  split; [apply (loop_dirs_kept _ _ _ _ _ _ _ _ _ Hloop)|].
  by destruct (loop_stats _ _ _ _ _ _ _ _ _ Hloop) as [-> _].
Qed.

(** C7. When the work of [init_script] on a listing returns: the records
    are split by the last character of the key, those ending in a slash are
    the markers and all others the files, no record being both or neither;
    every marker's path is a directory at the end; a download is requested
    for keys of files only, so never for a marker; the total reported is
    the number of files, and the four counters add up to it, so that no
    marker is counted anywhere. *)
Theorem markers_are_directories_only (client : Client) (objects : list object_record)
    (bucket lp : string) (d d' : node) (s : Stats) (t : list event) :
  export_objects client objects bucket lp d = (Ok s, d', t) →
  ∃ files markers,
    select is_file_char objects = Ok files ∧
    select is_slash objects = Ok markers ∧
    files = List.filter (λ o, is_file_key (Key o)) objects ∧
    markers = List.filter (λ o, is_marker_key (Key o)) objects ∧
    (∀ o, o ∈ objects → is_marker_key (Key o) = negb (is_file_key (Key o))) ∧
    (length files + length markers = length objects)%nat ∧
    (∀ o, o ∈ markers → dir_at d' (segments (lp +:+ "/" +:+ Key o)) = true) ∧
    (∀ k, k ∈ requested_keys t → is_file_key k = true ∧ k ∈ Key <$> files) ∧
    (∀ o, o ∈ markers → Key o ∉ requested_keys t) ∧
    Log INFO (msg_total_files (length files)) ∈ t ∧
    downloaded s + skipped_logged s + skipped_exists s + failed s
      = Z.of_nat (length files).
Proof.
  rewrite export_objects_run.
  destruct (select is_file_char objects) as [files|] eqn:Hf; [|done].
  destruct (select is_slash objects) as [markers|] eqn:Hm; [|done].
  destruct (create_directories markers lp d) as [[[[]|] dc] tc] eqn:Hc; [|done].
  destruct (download_objects client files bucket lp dc) as [[[s'|] dd] td] eqn:Hd; [|done].
  intros ?; simplify_eq.
  destruct (select_Ok_inv _ _ _ Hf) as [Hne ->].
  destruct (select_Ok_inv _ _ _ Hm) as [_ ->].
  destruct (create_directories_Ok _ _ _ _ _ Hc) as (_ & _ & Hrc & _ & _ & Hall).
  destruct (download_objects_requests _ _ _ _ _ _ _ _ Hd) as (Hrd & Hkept & Htot).
  destruct (summary_run s (List.filter (λ o, keep_key is_file_char (Key o)) objects) d')
    as (ts & Hs & Hrs%no_io_requested).
  rewrite Hs. simpl.
  assert (∀ k, k ∈ requested_keys
                     (Log INFO (msg_total_files (length
                        (List.filter (λ o, keep_key is_file_char (Key o)) objects)))
                      :: tc ++ td ++ ts) →
               is_file_key k = true ∧
               k ∈ Key <$> List.filter (λ o, is_file_key (Key o)) objects) as Hreq.
  { intros k Hk.
    change (k ∈ requested_keys (tc ++ td ++ ts)) in Hk.
    rewrite !requested_keys_app, Hrc, Hrs, app_nil_r in Hk. simpl in Hk.
    apply Hrd in Hk. split; [|done].
    apply list_elem_of_fmap in Hk as (o & -> & Ho).
    apply list_elem_of_In, List.filter_In in Ho. by destruct Ho. }
  eexists _, _. split; [done|]. split; [done|]. split; [done|]. split; [done|].
  split; [intros o Ho; by apply marker_or_file, Hne|].
  split; [by apply partition_length|].
  split; [intros o Ho; by apply Hkept, Hall|].
  split; [done|]. split; [|split].
  - intros o Ho Hk. apply Hreq in Hk as [Hk _].
    apply list_elem_of_In, List.filter_In in Ho as [Ho Hmk].
    apply list_elem_of_In in Ho.
    change (is_marker_key (Key o) = true) in Hmk.
    rewrite (marker_or_file (Key o)) in Hmk by by apply Hne.
    by rewrite Hk in Hmk.
  - by left.
  - unfold total in Htot. rewrite <-Htot. lia.
Qed.

Lemma markers_are_directories_only_witness :
  ∃ s d' t,
    export_objects (bucket_client [])
      [record_of "a"; record_of "d/"; record_of "d/b"] "bk" "out" empty_dir
      = (Ok s, d', t) ∧
    s = MkStats 2 0 0 0 ∧
    dir_at d' ["out"; "d"] = true ∧
    requested_keys t = ["a"; "d/b"] ∧
    ∃ files markers,
      select is_file_char [record_of "a"; record_of "d/"; record_of "d/b"] = Ok files ∧
      select is_slash [record_of "a"; record_of "d/"; record_of "d/b"] = Ok markers ∧
      (length files + length markers = 3)%nat ∧
      Log INFO (msg_total_files (length files)) ∈ t ∧
      downloaded s + skipped_logged s + skipped_exists s + failed s
        = Z.of_nat (length files).
Proof.
  eexists _, _, _.
  match goal with |- ?E ∧ _ => assert E as H by (vm_compute; reflexivity) end.
  split; [exact H|]. split; [reflexivity|].
  split; [vm_compute; reflexivity|]. split; [vm_compute; reflexivity|].
  destruct (markers_are_directories_only _ _ _ _ _ _ _ _ H)
    as (files & markers & Hf & Hm & _ & _ & _ & Hlen & _ & _ & _ & Htot & Hsum).
  exists files, markers. split; [exact Hf|]. split; [exact Hm|].
  split; [exact Hlen|]. split; [exact Htot|exact Hsum].
Defined.

(** * The ledger between iterations *)

Lemma add_to_download_log_run lp k fr :
  add_to_download_log lp k fr =
  match save_download_log lp ({[AStr k]} ∪ downloaded_files fr) (disk fr) with
  | (r, d', t) => (r, Frame d' ({[AStr k]} ∪ downloaded_files fr) (stats fr), t)
  end.
Proof.
  unfold add_to_download_log, set_add, get_downloaded_files, lift, mbind, M_bind.
  destruct fr as [d dl st]. simpl.
  by destruct (save_download_log lp ({[AStr k]} ∪ dl) d) as [[[[]|e] d'] t].
Qed.

Lemma for_enumerate_app {St A} (l1 l2 : list A) (body : nat → A → M St unit) :
  ∀ start s,
    for_enumerate start (l1 ++ l2) body s =
    match for_enumerate start l1 body s with
    | (Ok _, s1, t1) =>
        match for_enumerate (start + length l1) l2 body s1 with
        | (r, s2, t2) => (r, s2, t1 ++ t2)
        end
    | (Raise e, s1, t1) => (Raise e, s1, t1)
    end.
Proof.
  induction l1 as [|x l1 IH]; intros start s.
  - simpl. rewrite Nat.add_0_r. unfold mret, M_ret.
    by destruct (for_enumerate start l2 body s) as [[r s2] t2].
  - simpl. rewrite !bind_run. destruct (body start x s) as [[[[]|e] s'] t]; [|done].
    rewrite IH. destruct (for_enumerate (S start) l1 body s') as [[[[]|e] s1] t1]; [|done].
    replace (start + S (length l1))%nat with (S start + length l1)%nat by lia.
    destruct (for_enumerate _ l2 body s1) as [[r s2] t2]. by rewrite app_assoc.
Qed.

(** A key is reported as downloaded once, and the counter counts the
    reports. *)
Lemma loop_downloaded client bucket lp total_files files start fr fr' t :
  for_enumerate start files (download_one client bucket lp total_files) fr = (Ok (), fr', t) →
  downloaded (stats fr') = downloaded (stats fr) + Z.of_nat (length (downloaded_keys t)) ∧
  downloaded_files fr ⊆ downloaded_files fr' ∧
  (∀ k, k ∈ downloaded_keys t → AStr k ∉ downloaded_files fr) ∧
  NoDup (downloaded_keys t).
Proof.
  revert files start fr fr' t.
  apply (loop_Ok_ind client bucket lp total_files (λ fr fr' t _,
    downloaded (stats fr') = downloaded (stats fr) + Z.of_nat (length (downloaded_keys t)) ∧
    downloaded_files fr ⊆ downloaded_files fr' ∧
    (∀ k, k ∈ downloaded_keys t → AStr k ∉ downloaded_files fr) ∧
    NoDup (downloaded_keys t))).
  - intros fr. simpl. split; [lia|]. split; [done|]. split; [|constructor].
    intros k Hk. by apply elem_of_nil in Hk.
  - intros i f fs fr fr1 fr' t1 t2 Hstep (Hd & Hsub & Hfresh & Hnd).
    rewrite downloaded_keys_app.
    destruct Hstep as [(Hin & -> & ->) | [(c & Hc & H) | H]].
    + simpl in *. done.
    + destruct H as (Hnin & Hst & Hdl & _ & _ & _ & _ & Hdk & _).
      rewrite Hdk, Hd, Hst. rewrite Hdl in Hsub, Hfresh.
      destruct Hc as [-> | ->]; simpl.
      * split; [lia|]. split; [set_solver|]. split; [|done].
        intros k Hk. apply Hfresh in Hk. set_solver.
      * split; [lia|]. split; [set_solver|]. split.
        -- intros k [->|Hk]%elem_of_cons; [done|]. apply Hfresh in Hk. set_solver.
        -- constructor; [|done]. intros Hk. apply Hfresh in Hk. set_solver.
    + destruct H as (Hnin & Hst & _ & _ & _ & Hdk & _ & Hdl & _).
      rewrite Hdk, Hd, Hst. simpl. split; [lia|].
      destruct Hdl as [Hdl | [Hdl _]]; rewrite Hdl in Hsub, Hfresh;
        (split; [set_solver|]); (split; [|done]);
        intros k Hk; apply Hfresh in Hk; set_solver.
Qed.

Lemma size_keys_set l : NoDup l → size (keys_set l) = length l.
Proof.
  intros H. unfold keys_set. rewrite size_list_to_set, length_fmap; [done|].
  apply NoDup_fmap_2; [|done]. by intros x y [=].
Qed.

(** The keys an iteration reports are in the ledger file when it ends. *)
Lemma iteration_reports client bucket lp total_files index file fr fr' t k :
  download_one client bucket lp total_files index file fr = (Ok (), fr', t) →
  k ∈ downloaded_keys t ++ skipped_exists_keys t →
  k = Key file ∧ AStr k ∈ on_disk_ledger (disk fr') lp ∧
  downloaded_files fr' = on_disk_ledger (disk fr') lp.
Proof.
  rewrite download_one_iteration. intros Hstep%iteration_Ok Hk.
  destruct Hstep as [(Hin & -> & ->) | [(c & Hc & H) | H]].
  - simpl in Hk. by apply elem_of_nil in Hk.
  - destruct H as (_ & _ & Hdl & Hdisk & _ & _ & Hsk & Hdk & _).
    rewrite Hsk, Hdk in Hk. rewrite Hdisk, Hdl.
    assert (k = Key file) as ->; [|set_solver].
    destruct Hc as [-> | ->]; simpl in Hk; by apply list_elem_of_singleton in Hk.
  - destruct H as (_ & _ & _ & _ & Hsk & Hdk & _). rewrite Hsk, Hdk in Hk.
    by apply elem_of_nil in Hk.
Qed.




(** * The classification of one record *)

Ltac trace_keys_cons :=
  unfold skipped_exists_keys, downloaded_keys, requested_keys;
  simpl; try change (list_omap _ _ ?f ?l) with (omap f l);
  rewrite ?omap_app; simpl;
  repeat (rewrite (omap_sys _ _) by (done || eauto using save_download_log_sys, cleanup_sys));
  simpl; try done.


Lemma download_one_counts_once client bucket lp total_files index file fr fr' t :
  download_one client bucket lp total_files index file fr = (Ok (), fr', t) →
  ∃ c, stats fr' = bump c (stats fr) ∧
       ∀ c', stats fr' = bump c' (stats fr) → c' = c.
Proof.
  rewrite download_one_iteration. intros Hit%iteration_Ok.
  destruct (step_stats _ _ _ _ _ _ _ Hit) as [c Hc].
  exists c. split; [done|]. intros c' Hc'. apply (bump_inj c' c (stats fr)). congruence.
Qed.



(** * The second run *)

Lemma loop_all_logged client bucket lp total_files files : ∀ start d dl st,
  (∀ f, f ∈ files → AStr (Key f) ∈ dl) →
  ∃ t,
    for_enumerate start files (download_one client bucket lp total_files) (Frame d dl st)
    = (Ok (),
       Frame d dl (MkStats (downloaded st) (skipped_exists st)
                     (skipped_logged st + Z.of_nat (length files)) (failed st)), t) ∧
    no_io t.
Proof.
  induction files as [|f files IH]; intros start d dl st Hall.
  - exists []. split; [|constructor]. simpl. unfold mret, M_ret.
    destruct st. simpl. by rewrite Z.add_0_r.
  - destruct (IH (S start) d dl (bump c_skipped_logged st)) as (t & Ht & Hio).
    { intros g Hg. apply Hall. by right. }
    exists (Log INFO (msg_skipping_logged start total_files (Key f)) :: t).
    split; [|by constructor].
    change (for_enumerate start (f :: files) ?b ?s) with
      ((b start f ≫= λ _, for_enumerate (S start) files b) s).
    rewrite bind_run, download_one_iteration. unfold iteration. cbv zeta.
    rewrite decide_True by (apply Hall; by left). red_frame.
    change (bump c_skipped_logged st) with
      (MkStats (downloaded st) (skipped_exists st) (skipped_logged st + 1) (failed st)) in Ht.
    rewrite Ht. simpl. do 3 f_equal. f_equal. lia.
Qed.

Lemma report_progress_run lp d :
  ∃ t, report_progress lp d = (Ok (), d, t) ∧ requested_keys t = [].
Proof.
  unfold report_progress. rewrite bind_run.
  destruct (get_download_log_quiet lp d) as (t & -> & Hr & _).
  destruct (bool_decide (on_disk_ledger d lp ≠ ∅)).
  - eexists. split; [done|]. by rewrite requested_keys_app, Hr.
  - eexists. split; [done|]. by rewrite requested_keys_app, Hr.
Qed.

Lemma init_script_try_run fuel client bucket lp d :
  init_script_try fuel client bucket lp d =
  match list_objects_in_bucket fuel client bucket d with
  | None => None
  | Some (Raise e, _, t1) => Some (Raise e, d, (report_progress lp d).2 ++ t1)
  | Some (Ok objects, _, t1) =>
      match export_objects client objects bucket lp d with
      | (r, d2, t2) => Some (r, d2, (report_progress lp d).2 ++ t1 ++ t2)
      end
  end.
Proof.
  unfold init_script_try. destruct (report_progress_run lp d) as (t0 & -> & _). simpl.
  destruct (list_objects_in_bucket fuel client bucket d) as [[[r d1] t1]|] eqn:Hl; [|done].
  apply list_objects_in_bucket_same_disk in Hl as ->. by destruct r.
Qed.

(** The sentence of the specification fails when a download failed in the
    first run: the key is not in the ledger and no file is at its path, so
    the second run requests it again, and counts it as failed again when
    the service answers as before. *)
Lemma failed_files_are_tried_again :
  (∃ s1 d1 t1 s2 t2,
     init_script_try 2 (bucket_client ["a"]) "bk" "out" empty_dir = Some (Ok s1, d1, t1) ∧
     init_script_try 2 (bucket_client ["a"]) "bk" "out" d1 = Some (Ok s2, d1, t2) ∧
     s1 = MkStats 1 0 0 1 ∧
     s2 = MkStats 0 0 1 1 ∧
     requested_keys t2 = ["a"]) ∧
  ¬ second_run_as_specified 2 (bucket_client ["a"]) "bk" "out" empty_dir.
Proof.
  split.
  - eexists _, _, _, _, _. split; [vm_compute; reflexivity|].
    split; [vm_compute; reflexivity|]. split; [reflexivity|].
    split; [reflexivity|]. vm_compute. reflexivity.
  - intros H.
    eassert (init_script_try 2 (bucket_client ["a"]) "bk" "out" empty_dir
             = Some (Ok _, _, _)) as Hrun by (vm_compute; reflexivity).
    destruct (H _ _ _ Hrun) as (s2 & d2 & t2 & H2 & _ & Hsk).
    vm_compute in H2. injection H2 as <- _ _. vm_compute in Hsk. discriminate.
Qed.

(** What a run of [export_objects] that returned without a failure leaves
    behind: the directories are there and every file's key is in the
    ledger file. *)
Lemma export_objects_settled client objects bucket lp d s d' t :
  export_objects client objects bucket lp d = (Ok s, d', t) →
  failed s = 0 →
  ∃ files markers,
    select is_file_char objects = Ok files ∧
    select is_slash objects = Ok markers ∧
    total s = Z.of_nat (length files) ∧
    nonempty lp = true ∧
    dir_at d' (segments lp) = true ∧
    (∀ o, o ∈ markers → dir_at d' (segments (lp +:+ "/" +:+ Key o)) = true) ∧
    (∀ f, f ∈ files → AStr (Key f) ∈ on_disk_ledger d' lp).
Proof.
  rewrite export_objects_run.
  destruct (select is_file_char objects) as [files|]; [|done].
  destruct (select is_slash objects) as [markers|]; [|done].
  destruct (create_directories markers lp d) as [[[[]|] dc] tc] eqn:Hc; [|done].
  destruct (download_objects client files bucket lp dc) as [[[s'|] dd] td] eqn:Hd; [|done].
  intros ? Hfail; simplify_eq.
  destruct (create_directories_Ok _ _ _ _ _ Hc) as (_ & _ & _ & Hn & Hroot & Hall).
  apply download_objects_Ok in Hd as (fr' & t1 & t2 & _ & Hloop & -> & -> & _).
  pose proof (loop_dirs_kept _ _ _ _ _ _ _ _ _ Hloop) as Hkept.
  destruct (loop_stats _ _ _ _ _ _ _ _ _ Hloop) as [Htot _].
  destruct (loop_in_sync _ _ _ _ _ _ _ _ _ Hloop eq_refl Hfail) as (Hsync & _ & Hin & _).
  simpl in *. exists files, markers.
  split; [done|]. split; [done|]. split; [done|]. split; [done|].
  split; [by apply Hkept|]. split.
  - intros o Ho. by apply Hkept, Hall.
  - intros f Hf. rewrite Hsync. by apply Hin.
Qed.

(** On such a disk, [export_objects] requests nothing and changes nothing:
    every file is skipped as logged. *)
Lemma export_objects_all_logged client objects bucket lp d files markers :
  select is_file_char objects = Ok files →
  select is_slash objects = Ok markers →
  nonempty lp = true →
  dir_at d (segments lp) = true →
  (∀ o, o ∈ markers → dir_at d (segments (lp +:+ "/" +:+ Key o)) = true) →
  (∀ f, f ∈ files → AStr (Key f) ∈ on_disk_ledger d lp) →
  ∃ t,
    export_objects client objects bucket lp d
    = (Ok (MkStats 0 0 (Z.of_nat (length files)) 0), d, t) ∧
    requested_keys t = [] ∧
    Log INFO (msg_total_files (length files)) ∈ t.
Proof.
  intros Hf Hm Hn Hroot Hall Hin. rewrite export_objects_run, Hf, Hm.
  destruct (create_directories_id markers lp d Hn Hroot Hall) as [tc Hc].
  rewrite Hc.
  destruct (create_directories_Ok _ _ _ _ _ Hc) as (_ & _ & Hrc & _).
  destruct (loop_all_logged client bucket lp (length files) files 1 d
              (on_disk_ledger d lp) zero_stats Hin) as (t2 & Hloop & Hio).
  destruct (get_download_log_quiet lp d) as (t1 & Hg & Hr1 & _).
  assert (download_objects client files bucket lp d
          = (Ok (MkStats 0 0 (Z.of_nat (length files)) 0), d, t1 ++ t2)) as Hd.
  { apply download_objects_Ok. eexists _, t1, t2. split; [exact Hg|].
    split; [exact Hloop|]. done. }
  rewrite Hd.
  destruct (summary_run (MkStats 0 0 (Z.of_nat (length files)) 0) files d)
    as (ts & -> & Hrs%no_io_requested).
  eexists. split; [done|]. split; [|by left]. simpl.
  change (requested_keys (tc ++ (t1 ++ t2) ++ ts) = []).
  by rewrite !requested_keys_app, Hrc, Hr1, Hrs, (no_io_requested _ Hio).
Qed.

(** C4, amended. After a run that returned with no failure, a run against
    the same service on the disk the first one left returns too, leaves
    the disk as it is and requests no download; it counts every file as
    skipped because logged and nothing else: [skipped_logged] is the total
    number of files, the one the first run counted and the one the second
    reports. *)
Theorem second_run_skips_logged (fuel : nat) (client : Client) (bucket lp : string)
    (d d1 : node) (s1 : Stats) (t1 : list event) :
  init_script_try fuel client bucket lp d = Some (Ok s1, d1, t1) →
  failed s1 = 0 →
  ∃ s2 t2 total_files,
    init_script_try fuel client bucket lp d1 = Some (Ok s2, d1, t2) ∧
    downloaded s2 = 0 ∧
    skipped_logged s2 = Z.of_nat total_files ∧
    skipped_exists s2 = 0 ∧
    failed s2 = 0 ∧
    total s1 = Z.of_nat total_files ∧
    Log INFO (msg_total_files total_files) ∈ t2 ∧
    requested_keys t2 = [].
Proof.
  rewrite init_script_try_run. intros Hrun Hfail.
  destruct (list_objects_in_bucket fuel client bucket d) as [[[[objects|] dx] tl]|] eqn:Hl;
    [|done|done].
  destruct (export_objects client objects bucket lp d) as [[r d2] te] eqn:He.
  simplify_eq.
  destruct (export_objects_settled _ _ _ _ _ _ _ _ He Hfail)
    as (files & markers & Hf & Hm & Htot & Hn & Hroot & Hall & Hin).
  destruct (export_objects_all_logged client objects bucket lp d1 files markers
              Hf Hm Hn Hroot Hall Hin) as (t2 & H2 & Hreq & Hlog).
  rewrite init_script_try_run, (list_objects_in_bucket_disk _ _ _ d d1), Hl, H2.
  destruct (report_progress_run lp d1) as (t0 & -> & Hr0).
  exists (MkStats 0 0 (Z.of_nat (length files)) 0), (t0 ++ tl ++ t2), (length files).
  split; [done|]. simpl. split; [done|]. split; [done|]. split; [done|]. split; [done|].
  split; [done|]. split.
  - rewrite !elem_of_app. by right; right.
  - rewrite !requested_keys_app, Hr0, Hreq.
    by rewrite (list_objects_in_bucket_requests _ _ _ _ _ _ _ Hl).
Qed.

Lemma second_run_skips_logged_witness :
  ∃ s1 d1 t1,
    init_script_try 2 (bucket_client []) "bk" "out" empty_dir = Some (Ok s1, d1, t1) ∧
    s1 = MkStats 2 0 0 0 ∧
    ∃ s2 t2,
      init_script_try 2 (bucket_client []) "bk" "out" d1 = Some (Ok s2, d1, t2) ∧
      downloaded s2 = 0 ∧
      skipped_logged s2 = 2.
Proof.
  eexists _, _, _.
  match goal with |- ?E ∧ _ => assert E as H by (vm_compute; reflexivity) end.
  split; [exact H|]. split; [reflexivity|].
  destruct (second_run_skips_logged _ _ _ _ _ _ _ _ H eq_refl)
    as (s2 & t2 & n & H2 & Hd & Hs & _ & _ & Hn & _).
  exists s2, t2. split; [exact H2|]. split; [exact Hd|].
  rewrite Hs, <-Hn. reflexivity.
Defined.


(** * The ledger store: saving *)

Lemma file_at_stat n p c : file_at n p = Some c ↔ stat n p = Ok (File c).
Proof.
  unfold file_at. destruct (stat n p) as [[c'|es]|e]; split; intros; by simplify_eq.
Qed.

Lemma file_at_lookup d p c :
  nonempty p = true → trailing_slash p = false →
  file_at d (segments p) = Some c →
  fs_exists d p = true ∧ fs_read d p = Ok c.
Proof.
  intros Hn Ht Hf%file_at_stat.
  by rewrite fs_exists_stat, fs_read_file_at, Hf.
Qed.

Lemma ledger_not_under_root lp : ¬ segments (ledger_path lp) `prefix_of` segments lp.
Proof.
  rewrite ledger_path_segments. intros Hp%prefix_length.
  rewrite length_app in Hp. simpl in Hp. lia.
Qed.

(** What the three steps of [save_download_log] leave. *)
Lemma save_download_log_outcome lp s d :
  match save_download_log lp s d with
  | (Ok _, d', t) =>
      t = [Sys (SysMakedirs lp); Sys (SysOpen (ledger_path lp) "w")] ∧
      dir_at d' (segments lp) = true ∧
      file_at d' (segments (ledger_path lp)) = Some (ledger_document s) ∧
      (∀ q, q ≠ segments (ledger_path lp) → file_at d' q = file_at d q) ∧
      dirs_kept d d'
  | (Raise e, d', t) =>
      is_Exception e = true ∧ files_same d d' ∧ dirs_kept d d' ∧
      (nonempty lp = false ∨
       (∃ x c, x `prefix_of` segments lp ∧ file_at d x = Some c) ∨
       dir_at d (segments (ledger_path lp)) = true)
  end.
Proof.
  rewrite save_download_log_run.
  destruct (fs_makedirs d lp) as [d1|e] eqn:Hmk.
  - apply fs_makedirs_mkdirs in Hmk as Hmk'.
    destruct (fs_write d1 _ _) as [d2|e] eqn:Hw.
    + apply fs_write_update in Hw as Hw'. destruct Hw' as [Ht Hu].
      destruct (update_put_put _ (ledger_document s) _ _ _ Hu) as [Heq [d3 Hd3]].
      assert (fs_write d2 (ledger_path lp) (ledger_document s) = Ok d3) as ->.
      { unfold fs_write. by rewrite ledger_path_nonempty, Ht, Heq. }
      split; [done|]. split; [|split; [|split]].
      * rewrite (update_dir_at _ _ _ _ _ (put_file_file_only _) Hd3).
        by eapply mkdirs_prefix_dir.
      * by eapply update_put_file_at.
      * intros q Hq.
        destruct (update_other _ _ (put_file_file_only _) _ _ q Hd3 Hq) as [-> _].
        by eapply mkdirs_file_at.
      * intros q Hq. rewrite (update_dir_at _ _ _ _ q (put_file_file_only _) Hd3).
        by eapply mkdirs_dir_at_mono.
    + split; [by eapply fs_write_Exception|].
      split; [intros q; by eapply mkdirs_file_at|].
      split; [intros q; by eapply mkdirs_dir_at_mono|].
      right; right.
      destruct (dir_at d1 (segments (ledger_path lp))) eqn:Hd1.
      * revert Hd1. unfold dir_at.
        by rewrite (mkdirs_stat_other _ _ _ _ Hmk' (ledger_not_under_root lp)).
      * exfalso. rewrite ledger_path_segments in Hd1.
        destruct (update_put_ok (Bytes "") (segments lp) DOWNLOAD_LOG_FILE d1) as [x Hx];
          [by eapply mkdirs_prefix_dir|done|].
        unfold fs_write in Hw.
        by rewrite ledger_path_nonempty, ledger_path_no_slash, ledger_path_segments, Hx in Hw.
  - split; [by eapply fs_makedirs_Exception|]. split; [by intros q|]. split; [by intros q|].
    unfold fs_makedirs in Hmk. destruct (nonempty lp); [|by left].
    right; left. by eapply mkdirs_raise_file.
Qed.

(** X1. What [save_download_log] wrote, [get_download_log] reads back:
    after a save that returned, loading gives exactly the set that was
    saved, whatever its elements, with no warning and no change to the
    disk. *)
Theorem saved_ledger_loads_back (lp : string) (s : gset atom) (d d' : node)
    (t : list event) :
  save_download_log lp s d = (Ok (), d', t) →
  get_download_log lp d'
  = (Ok s, d', [Sys (SysExists (ledger_path lp)); Sys (SysOpen (ledger_path lp) "r")]).
Proof.
  intros Hs. pose proof (save_download_log_outcome lp s d) as H. rewrite Hs in H.
  destruct H as (_ & _ & Hf & _).
  destruct (file_at_lookup _ _ _ (ledger_path_nonempty lp) (ledger_path_no_slash lp) Hf)
    as [Hex Hrd].
  by rewrite get_download_log_cases, Hex, Hrd, decode_ledger_document.
Qed.

Lemma saved_ledger_loads_back_witness :
  ∃ d' t,
    save_download_log "out" {[AStr "a"; ANum 7; ANone]} disk_with_list_ledger
      = (Ok (), d', t) ∧
    get_download_log "out" d'
      = (Ok {[AStr "a"; ANum 7; ANone]}, d',
         [Sys (SysExists "out/download_log.json");
          Sys (SysOpen "out/download_log.json" "r")]).
Proof.
  eexists _, _.
  match goal with |- ?E ∧ _ => assert E as H by (vm_compute; reflexivity) end.
  split; [exact H|]. exact (saved_ledger_loads_back _ _ _ _ _ H).
Defined.



(** * The ledger store: documents of other shapes *)



(** * The object lister: a truncated page without a token *)

Lemma list_pages_tokenless client bucket r :
  list_objects_v2 client bucket None = Ok r →
  truthy_flag (IsTruncated r) = true →
  truthy_token (NextContinuationToken r) = false →
  ∀ fuel token acc t d,
    sent_token token = None →
    list_pages fuel client bucket token acc t d = None.
Proof.
  intros Hr Hflag Htok. induction fuel as [|fuel IH]; intros token acc t d Hsent; [done|].
  simpl. rewrite Hsent, Hr, Hflag. apply IH. unfold sent_token. by rewrite Htok.
Qed.

(** X4. The loop of [list_objects_in_bucket] tests the token for truth
    before sending it. When the answer to the request without a token says
    it is truncated and carries no [NextContinuationToken], or an empty
    one, the next request is again the one without a token and gets the
    same answer, and the loop never ends: no number of requests is enough
    for the listing to return or raise. *)
Theorem listing_without_token_never_ends (client : Client) (bucket : string)
    (r : response) :
  list_objects_v2 client bucket None = Ok r →
  truthy_flag (IsTruncated r) = true →
  NextContinuationToken r = None ∨ NextContinuationToken r = Some "" →
  ∀ fuel d, list_objects_in_bucket fuel client bucket d = None.
Proof.
  intros Hr Hflag Htok fuel d. unfold list_objects_in_bucket.
  rewrite (list_pages_tokenless client bucket r Hr Hflag); [done| |done].
  by destruct Htok as [-> | ->].
Qed.

Lemma listing_without_token_never_ends_witness :
  list_objects_v2 tokenless_client "bk" None
    = Ok (Response (Some [record_of "a"]) (Some true) None) ∧
  list_objects_in_bucket 1000 tokenless_client "bk" empty_dir = None.
Proof.
  split; [reflexivity|].
  apply (listing_without_token_never_ends tokenless_client "bk"
           (Response (Some [record_of "a"]) (Some true) None));
    [reflexivity|reflexivity|by left].
Defined.

(** * What is on disk stays *)

Lemma keeps_but_refl p d : keeps_but p d d.
Proof. split; [by intros q c _ Hc|by intros q]. Qed.

Lemma keeps_but_trans p d1 d2 d3 :
  keeps_but p d1 d2 → keeps_but p d2 d3 → keeps_but p d1 d3.
Proof.
  intros [Hf1 Hd1] [Hf2 Hd2]. split.
  - intros q c Hq Hc. by apply Hf2, Hf1.
  - intros q Hq. by apply Hd2, Hd1.
Qed.

Lemma keeps_but_same p d d' : files_same d d' → dirs_kept d d' → keeps_but p d d'.
Proof. intros Hf Hd. split; [|done]. intros q c _ Hc. by rewrite Hf. Qed.

Lemma created_keeps d dx p x : created d dx p → keeps_but x d dx.
Proof.
  intros ([e He] & _ & Hoth & Hdir). split; [|done].
  intros q c _ Hc. rewrite Hoth; [done|]. intros ->.
  by rewrite (file_at_stat_raise _ _ _ He) in Hc.
Qed.

(** Whatever the outcome of an iteration, every file that was on disk is
    there with its contents, the ledger file aside, and every directory. *)
Lemma iteration_keeps client bucket lp total_files index file fr r fr' t :
  iteration client bucket lp total_files index file fr = (r, fr', t) →
  keeps_but (segments (ledger_path lp)) (disk fr) (disk fr').
Proof.
  unfold iteration. destruct fr as [d dl st]. cbv zeta. red_frame.
  set (k := Key file). set (path := lp +:+ "/" +:+ k).
  destruct (decide (AStr k ∈ dl)) as [Hin|Hnin].
  { intros ?; simplify_eq. apply keeps_but_refl. }
  destruct (fs_exists d path) eqn:Hex.
  { destruct (save_download_log lp _ d) as [[[[]|e] d'] ts] eqn:Hs;
      intros ?; simplify_eq; simpl.
    - destruct (save_download_log_ok _ _ _ _ _ Hs) as (_ & Hf & Hd).
      split; [|done]. intros q c Hq Hc. by rewrite Hf.
    - destruct (save_download_log_raise _ _ _ _ _ _ Hs) as (_ & Hf & Hd & _).
      by apply keeps_but_same. }
  destruct (fs_makedirs d (os_path_dirname path)) as [d1|] eqn:Hmk.
  2:{ intros ?; simplify_eq. apply keeps_but_refl. }
  assert (files_same d d1 ∧ dirs_kept d d1) as [Hf1 Hd1].
  { apply fs_makedirs_mkdirs in Hmk. split; intros q.
    - by eapply mkdirs_file_at.
    - by eapply mkdirs_dir_at_mono. }
  destruct (fs_write d1 path (Bytes "")) as [d2|] eqn:Hw.
  2:{ unfold on_failure, cleanup.
    destruct (fs_exists d1 path) eqn:Hex1.
    - destruct (fs_remove d1 path) as [d'|] eqn:Hrm.
      + exfalso.
        assert (nonempty path = true) as Hn
          by (unfold fs_remove in Hrm; by destruct (nonempty path)).
        apply fs_remove_update in Hrm as [Ht Hu].
        destruct (update_no_dir _ _ unlink_file_only _ _ Hu) as [_ Hnd].
        rewrite fs_exists_stat in Hex, Hex1 by done.
        unfold dir_at in Hnd. destruct (stat d1 (segments path)) as [[c|]|] eqn:Hs; try done.
        specialize (Hf1 (segments path)). unfold file_at in Hf1. rewrite Hs in Hf1.
        by destruct (stat d (segments path)) as [[]|].
      + intros ?; simplify_eq. simpl. by apply keeps_but_same.
    - intros ?; simplify_eq. simpl. by apply keeps_but_same. }
  destruct (created_after_open _ _ _ _ _ _ Hex Hmk Hw) as (Ht & Hn & Hcr).
  set (tr := download_fileobj client bucket k).
  pose proof (created_write d d2 _ path (written tr) Hcr eq_refl Ht Hn) as Hcr3.
  set (d3 := match fs_write d2 path (written tr) with Ok d3 => d3 | Raise _ => d2 end) in *.
  destruct (error tr) as [e|] eqn:He.
  { destruct (is_Exception e).
    - unfold on_failure.
      destruct (cleanup_created _ _ _ Hcr3 Ht Hn) as (d' & tc & Hc & _ & Hf & Hd & _ & _).
      rewrite Hc. intros ?; simplify_eq. simpl. apply keeps_but_same; [|done].
      by intros q.
    - intros ?; simplify_eq. simpl. by eapply created_keeps. }
  destruct (save_download_log lp _ d3) as [[[[]|e] d4] ts] eqn:Hs.
  - intros ?; simplify_eq. simpl.
    destruct (save_download_log_ok _ _ _ _ _ Hs) as (_ & Hf & Hd).
    eapply keeps_but_trans; [by eapply created_keeps|].
    split; [|done]. intros q c Hq Hc. by rewrite Hf.
  - destruct (save_download_log_raise _ _ _ _ _ _ Hs) as (_ & Hf4 & Hd4 & _).
    pose proof (created_weaken _ _ _ _ Hcr3 Hf4 Hd4) as Hcr4.
    unfold on_failure.
    destruct (cleanup_created _ _ _ Hcr4 Ht Hn) as (d' & tc & Hc & _ & Hf & Hd & _ & _).
    rewrite Hc. intros ?; simplify_eq. simpl. apply keeps_but_same; [|done].
    by intros q.
Qed.

Lemma for_enumerate_cons_run {St A} start (x : A) l (body : nat → A → M St unit) s :
  for_enumerate start (x :: l) body s =
  match body start x s with
  | (Ok _, s', t) =>
      match for_enumerate (S start) l body s' with (r, s'', t') => (r, s'', t ++ t') end
  | (Raise e, s', t) => (Raise e, s', t)
  end.
Proof. done. Qed.

Lemma loop_keeps client bucket lp total_files files : ∀ start fr r fr' t,
  for_enumerate start files (download_one client bucket lp total_files) fr = (r, fr', t) →
  keeps_but (segments (ledger_path lp)) (disk fr) (disk fr').
Proof.
  induction files as [|f files IH]; intros start fr r fr' t H.
  - simpl in H. unfold mret, M_ret in H. simplify_eq. apply keeps_but_refl.
  - rewrite for_enumerate_cons_run, download_one_iteration in H.
    destruct (iteration _ _ _ _ _ f fr) as [[[[]|e] fr1] t1] eqn:Hit.
    + destruct (for_enumerate _ files _ fr1) as [[r2 fr2] t2] eqn:Hrest. simplify_eq.
      eapply keeps_but_trans; [by eapply iteration_keeps|by eapply IH].
    + simplify_eq. by eapply iteration_keeps.
Qed.

(** The loop with its handler: a [KeyboardInterrupt] that leaves the loop
    is logged with the number of logged keys and raised again; nothing
    else is caught. *)
Lemma download_loop_run client files bucket lp total_files start fr :
  download_loop client files bucket lp total_files start fr =
  match for_enumerate start files (download_one client bucket lp total_files) fr with
  | (Raise e, fr1, t1) =>
      if is_KeyboardInterrupt e
      then (Raise e, fr1,
            t1 ++ [Log WARNING msg_interrupted;
                   Log INFO (msg_resume_hint (size (downloaded_files fr1)))])
      else (Raise e, fr1, t1)
  | (Ok u, fr1, t1) => (Ok u, fr1, t1)
  end.
Proof.
  unfold download_loop, try_except.
  destruct (for_enumerate start files _ fr) as [[[[]|e] fr1] t1]; [done|].
  by destruct (is_KeyboardInterrupt e).
Qed.

Lemma download_objects_run client files bucket lp d :
  ∃ t0,
    get_download_log lp d = (Ok (on_disk_ledger d lp), d, t0) ∧
    download_objects client files bucket lp d =
    match download_loop client files bucket lp (length files) 1
            (Frame d (on_disk_ledger d lp) zero_stats) with
    | (Ok _, fr, t) => (Ok (stats fr), disk fr, t0 ++ t)
    | (Raise e, fr, t) => (Raise e, disk fr, t0 ++ t)
    end.
Proof.
  destruct (get_download_log_run lp d) as [t0 Hg]. exists t0. split; [done|].
  unfold download_objects. by rewrite Hg.
Qed.

Lemma download_objects_keeps client files bucket lp d r d' t :
  download_objects client files bucket lp d = (r, d', t) →
  keeps_but (segments (ledger_path lp)) d d'.
Proof.
  destruct (download_objects_run client files bucket lp d) as (t0 & _ & ->).
  rewrite download_loop_run.
  destruct (for_enumerate 1 files _ _) as [[[[]|e] fr1] t1] eqn:Hloop.
  - intros ?; simplify_eq. apply (loop_keeps _ _ _ _ _ _ _ _ _ _ Hloop).
  - destruct (is_KeyboardInterrupt e); intros ?; simplify_eq;
      apply (loop_keeps _ _ _ _ _ _ _ _ _ _ Hloop).
Qed.



(** * A transfer into a new file *)

(** Opening a path that did not exist, after [os.makedirs] on its
    [dirname], and writing through the handle: the file holds what was
    written, and no other file has changed. *)
Lemma transfer_written d d1 path c :
  nonempty path = true → trailing_slash path = false →
  fs_exists d path = false →
  fs_makedirs d (os_path_dirname path) = Ok d1 →
  ∃ d2 d3,
    fs_write d1 path (Bytes "") = Ok d2 ∧
    fs_write d2 path c = Ok d3 ∧
    file_at d3 (segments path) = Some c ∧
    (∀ q, q ≠ segments path → file_at d3 q = file_at d q) ∧
    dirs_kept d d3.
Proof.
  intros Hn Ht Hex Hmk.
  destruct (open_succeeds _ _ _ (Bytes "") Hn Ht Hex Hmk) as [d2 Hw].
  apply fs_makedirs_mkdirs in Hmk.
  apply fs_write_update in Hw as Hw'. destruct Hw' as [_ Hu].
  destruct (update_put_put _ c _ _ _ Hu) as [Heq [d3 Hd3]].
  rewrite <-Heq in Hd3.
  exists d2, d3. split; [done|]. split; [|split; [|split]].
  - unfold fs_write. by rewrite Hn, Ht.
  - by eapply update_put_file_at.
  - intros q Hq.
    destruct (update_other _ _ (put_file_file_only _) _ _ q Hd3 Hq) as [-> _].
    destruct (update_other _ _ (put_file_file_only _) _ _ q Hu Hq) as [-> _].
    by eapply mkdirs_file_at.
  - intros q Hq.
    rewrite (update_dir_at _ _ _ _ q (put_file_file_only _) Hd3).
    rewrite (update_dir_at _ _ _ _ q (put_file_file_only _) Hu).
    by eapply mkdirs_dir_at_mono.
Qed.

(** * An interrupted download *)



(** * What the iterations report *)

Ltac observe :=
  unfold progress_lines, skipped_exists_keys, downloaded_keys, requested_keys;
  simpl; repeat change (list_omap _ _ ?f ?l) with (omap f l);
  rewrite ?omap_app; simpl;
  repeat (rewrite (omap_sys _ _) by (done || eauto using save_download_log_sys, cleanup_sys));
  simpl.

(** An iteration that returns has logged one progress line, with its
    index and its key. *)
Lemma iteration_line client bucket lp total_files index file fr fr' t :
  iteration client bucket lp total_files index file fr = (Ok (), fr', t) →
  progress_lines t = [(index, total_files, Key file)].
Proof.
  unfold iteration, on_failure. destruct fr as [d dl st]. cbv zeta. red_frame.
  set (k := Key file). set (path := lp +:+ "/" +:+ k).
  destruct (decide (AStr k ∈ dl)); [by intros ?; simplify_eq|].
  destruct (fs_exists d path).
  { destruct (save_download_log lp _ d) as [[[[]|e] d'] ts] eqn:Hs; [|done].
    intros ?; simplify_eq. by observe. }
  destruct (fs_makedirs d _) as [d1|]; [|done].
  destruct (fs_write d1 path _) as [d2|].
  2:{ destruct (cleanup path d1) as [[rc dc] tc] eqn:Hc. intros ?; simplify_eq. by observe. }
  destruct (error _) as [e|].
  { destruct (is_Exception e); [|done].
    destruct (cleanup path _) as [[rc dc] tc] eqn:Hc. intros ?; simplify_eq. by observe. }
  destruct (save_download_log lp _ _) as [[[[]|e] d4] ts] eqn:Hs.
  - intros ?; simplify_eq. by observe.
  - destruct (cleanup path d4) as [[rc dc] tc] eqn:Hc. intros ?; simplify_eq. by observe.
Qed.

Lemma get_download_log_lines lp d r d' t :
  get_download_log lp d = (r, d', t) → progress_lines t = [].
Proof.
  rewrite get_download_log_cases.
  destruct (fs_exists d (ledger_path lp)); [|by intros ?; simplify_eq].
  destruct (fs_read d (ledger_path lp)) as [c|e]; [|by intros ?; simplify_eq].
  destruct (decode_ledger c); by intros ?; simplify_eq.
Qed.

Lemma progress_lines_app t1 t2 :
  progress_lines (t1 ++ t2) = progress_lines t1 ++ progress_lines t2.
Proof. apply omap_app. Qed.

Lemma loop_lines client bucket lp total_files files : ∀ start fr fr' t,
  for_enumerate start files (download_one client bucket lp total_files) fr = (Ok (), fr', t) →
  progress_lines t = imap (λ i f, ((start + i)%nat, total_files, Key f)) files.
Proof.
  induction files as [|f files IH]; intros start fr fr' t H.
  - simpl in H. unfold mret, M_ret in H. by simplify_eq.
  - apply for_enumerate_cons_Ok in H as (fr1 & t1 & t2 & H1 & H2 & ->).
    rewrite download_one_iteration in H1.
    rewrite progress_lines_app, (iteration_line _ _ _ _ _ _ _ _ _ H1), (IH _ _ _ _ H2).
    simpl. rewrite Nat.add_0_r. f_equal. apply imap_ext. intros i x _. simpl.
    do 2 f_equal. lia.
Qed.

(** X7. A run of [download_objects] that returns has logged one progress
    line for every record, in the order of the list: the line of the i-th
    record carries the counter [i/n], counted from 1, with [n] the number of
    records, and the record's key. *)
Theorem progress_is_reported_in_order (client : Client) (files : list object_record)
    (bucket lp : string) (d d' : node) (s : Stats) (t : list event) :
  download_objects client files bucket lp d = (Ok s, d', t) →
  progress_lines t = imap (λ i f, (S i, length files, Key f)) files.
Proof.
  intros (fr' & t1 & t2 & Hg & Hloop & _ & _ & ->)%download_objects_Ok.
  rewrite progress_lines_app, (get_download_log_lines _ _ _ _ _ Hg).
  by rewrite (loop_lines _ _ _ _ _ _ _ _ _ Hloop).
Qed.

Lemma progress_is_reported_in_order_witness :
  ∃ s d' t,
    download_objects (bucket_client ["d/b"]) [record_of "a"; record_of "d/b"; record_of "a"]
      "bk" "out" empty_dir = (Ok s, d', t) ∧
    progress_lines t = [(1, 3, "a"); (2, 3, "d/b"); (3, 3, "a")]%nat.
Proof.
  eexists _, _, _.
  match goal with |- ?E ∧ _ => assert E as H by (vm_compute; reflexivity) end.
  split; [exact H|]. exact (progress_is_reported_in_order _ _ _ _ _ _ _ _ H).
Defined.

(** * What a download leaves on disk *)

(** A key is reported as downloaded by the iteration on its record only,
    and then the file at its path holds what the transfer wrote, unless
    the ledger was saved over it. *)
Lemma iteration_downloaded client bucket lp total_files index file fr r fr' t k :
  iteration client bucket lp total_files index file fr = (r, fr', t) →
  k ∈ downloaded_keys t →
  k = Key file ∧
  (segments (lp +:+ "/" +:+ k) ≠ segments (ledger_path lp) →
   file_at (disk fr') (segments (lp +:+ "/" +:+ k))
   = Some (written (download_fileobj client bucket k))).
Proof.
  unfold iteration, on_failure. destruct fr as [d dl st]. cbv zeta. red_frame.
  set (k0 := Key file). set (path := lp +:+ "/" +:+ k0).
  assert (∀ x : string, x ∈ @nil string → False) as Hnil
    by (intros x Hx; by apply elem_of_nil in Hx).
  destruct (decide (AStr k0 ∈ dl)).
  { intros ? Hk; simplify_eq. by apply Hnil in Hk. }
  destruct (fs_exists d path) eqn:Hex.
  { destruct (save_download_log lp _ d) as [[[[]|e] d'] ts] eqn:Hs;
      intros ? Hk; simplify_eq; revert Hk; observe; intros Hk; by apply Hnil in Hk. }
  destruct (fs_makedirs d _) as [d1|] eqn:Hmk.
  2:{ intros ? Hk; simplify_eq. by apply Hnil in Hk. }
  destruct (fs_write d1 path _) as [d2|] eqn:Hw.
  2:{ destruct (cleanup path d1) as [[rc dc] tc] eqn:Hc.
      intros ? Hk; simplify_eq; revert Hk; observe; intros Hk; by apply Hnil in Hk. }
  destruct (error _) as [e|] eqn:He.
  { destruct (is_Exception e).
    - destruct (cleanup path _) as [[rc dc] tc] eqn:Hc.
      intros ? Hk; simplify_eq; revert Hk; observe; intros Hk; by apply Hnil in Hk.
    - intros ? Hk; simplify_eq. by apply Hnil in Hk. }
  destruct (save_download_log lp _ _) as [[[[]|e] d4] ts] eqn:Hs.
  - intros ? Hk; simplify_eq. revert Hk. observe.
    intros ->%list_elem_of_singleton. split; [done|]. intros Hne. simpl.
    assert (nonempty path = true) as Hn
      by (unfold fs_write in Hw; by destruct (nonempty path)).
    apply fs_write_update in Hw as Hw'. destruct Hw' as [Ht _].
    destruct (transfer_written _ _ _ (written (download_fileobj client bucket k0))
                Hn Ht Hex Hmk) as (d2' & d3 & Hw2 & Hw3 & Hfile & _).
    rewrite Hw in Hw2. simplify_eq. rewrite Hw3 in Hs.
    destruct (save_download_log_ok _ _ _ _ _ Hs) as (_ & Hf & _).
    by rewrite Hf.
  - destruct (cleanup path d4) as [[rc dc] tc] eqn:Hc.
    intros ? Hk; simplify_eq; revert Hk; observe; intros Hk; by apply Hnil in Hk.
Qed.

Lemma loop_downloaded_files client bucket lp total_files files k :
  segments (lp +:+ "/" +:+ k) ≠ segments (ledger_path lp) →
  ∀ start fr r fr' t,
    for_enumerate start files (download_one client bucket lp total_files) fr = (r, fr', t) →
    k ∈ downloaded_keys t →
    k ∈ Key <$> files ∧
    file_at (disk fr') (segments (lp +:+ "/" +:+ k))
    = Some (written (download_fileobj client bucket k)).
Proof.
  intros Hne. induction files as [|f files IH]; intros start fr r fr' t H Hk.
  - simpl in H. unfold mret, M_ret in H. simplify_eq. by apply elem_of_nil in Hk.
  - rewrite for_enumerate_cons_run, download_one_iteration in H.
    destruct (iteration _ _ _ _ _ f fr) as [[[[]|e] fr1] t1] eqn:Hit.
    + destruct (for_enumerate _ files _ fr1) as [[r2 fr2] t2] eqn:Hrest. simplify_eq.
      rewrite downloaded_keys_app in Hk. apply elem_of_app in Hk as [Hk|Hk].
      * destruct (iteration_downloaded _ _ _ _ _ _ _ _ _ _ _ Hit Hk) as [-> Hfile].
        split; [by left|].
        destruct (loop_keeps _ _ _ _ _ _ _ _ _ _ Hrest) as [Hkeep _].
        apply Hkeep; [done|]. by apply Hfile.
      * destruct (IH _ _ _ _ _ Hrest Hk) as [Hin Hfile].
        split; [by right|done].
    + simplify_eq.
      destruct (iteration_downloaded _ _ _ _ _ _ _ _ _ _ _ Hit Hk) as [-> Hfile].
      split; [by left|]. by apply Hfile.
Qed.



(** * The directory materializer: what it leaves alone *)

Lemma mkdirs_new_dirs n n' p q :
  mkdirs n p = Ok n' → dir_at n' q = true → dir_at n q = true ∨ q `prefix_of` p.
Proof.
  intros Hm Hd. destruct (decide (q `prefix_of` p)) as [Hp|Hp]; [by right|left].
  revert Hd. unfold dir_at. by rewrite (mkdirs_stat_other _ _ _ _ Hm Hp).
Qed.

Lemma os_makedirs_frame p d r d' t :
  os_makedirs p d = (r, d', t) →
  files_same d d' ∧ dirs_kept d d' ∧ requested_keys t = [] ∧
  (∀ q, dir_at d' q = true → dir_at d q = true ∨ q `prefix_of` segments p).
Proof.
  rewrite os_makedirs_run. destruct (fs_makedirs d p) as [d1|e] eqn:Hmk.
  - apply fs_makedirs_mkdirs in Hmk. intros ?; simplify_eq.
    split; [intros q; by eapply mkdirs_file_at|].
    split; [intros q; by eapply mkdirs_dir_at_mono|]. split; [done|].
    intros q. by apply mkdirs_new_dirs.
  - intros ?; simplify_eq. split; [by intros q|]. split; [by intros q|].
    split; [done|]. intros q Hq. by left.
Qed.

Lemma for_each_directories_frame lp dirs : ∀ d r d' t,
  for_each dirs (create_directory lp) d = (r, d', t) →
  files_same d d' ∧ dirs_kept d d' ∧ requested_keys t = [] ∧
  (∀ q, dir_at d' q = true →
        dir_at d q = true ∨
        ∃ o, o ∈ dirs ∧ q `prefix_of` segments (lp +:+ "/" +:+ Key o)).
Proof.
  induction dirs as [|o dirs IH]; intros d r d' t H.
  - simpl in H. unfold mret, M_ret in H. simplify_eq.
    split; [by intros q|]. split; [by intros q|]. split; [done|]. intros q Hq. by left.
  - rewrite for_each_cons_run, create_directory_run in H.
    destruct (fs_makedirs d _) as [d1|e] eqn:Hmk.
    + destruct (for_each dirs _ d1) as [[r2 d2] t2] eqn:E. simplify_eq.
      destruct (IH _ _ _ _ E) as (Hf & Hk & Hr & Hnew).
      apply fs_makedirs_mkdirs in Hmk.
      split; [|split; [|split]].
      * intros q. rewrite Hf. by eapply mkdirs_file_at.
      * intros q Hq. apply Hk. by eapply mkdirs_dir_at_mono.
      * done.
      * intros q Hq. destruct (Hnew q Hq) as [Hq1|(o' & Ho' & Hp)].
        -- destruct (mkdirs_new_dirs _ _ _ _ Hmk Hq1) as [?|Hp]; [by left|].
           right. exists o. split; [by left|done].
        -- right. exists o'. split; [by right|done].
    + simplify_eq. split; [by intros q|]. split; [by intros q|].
      split; [done|]. intros q Hq. by left.
Qed.

Lemma create_directories_frame dirs lp d r d' t :
  create_directories dirs lp d = (r, d', t) →
  files_same d d' ∧ dirs_kept d d' ∧ requested_keys t = [] ∧
  (∀ q, dir_at d' q = true →
        dir_at d q = true ∨ q `prefix_of` segments lp ∨
        ∃ o, o ∈ dirs ∧ q `prefix_of` segments (lp +:+ "/" +:+ Key o)).
Proof.
  rewrite create_directories_run, bind_run.
  destruct (os_makedirs lp d) as [[[[]|e] d1] t1] eqn:Hroot.
  - destruct (os_makedirs_frame _ _ _ _ _ Hroot) as (Hf1 & Hk1 & Hr1 & Hn1).
    destruct (for_each dirs _ d1) as [[r2 d2] t2] eqn:E. intros ?; simplify_eq.
    destruct (for_each_directories_frame _ _ _ _ _ _ E) as (Hf & Hk & Hr & Hnew).
    split; [|split; [|split]].
    + intros q. by rewrite Hf.
    + intros q Hq. by apply Hk, Hk1.
    + by rewrite requested_keys_app, Hr1, Hr.
    + intros q Hq. destruct (Hnew q Hq) as [Hq1|?]; [|by right; right].
      destruct (Hn1 q Hq1) as [?|?]; [by left|by right; left].
  - intros ?; simplify_eq.
    destruct (os_makedirs_frame _ _ _ _ _ Hroot) as (Hf1 & Hk1 & Hr1 & Hn1).
    split; [done|]. split; [done|]. split; [done|].
    intros q Hq. destruct (Hn1 q Hq) as [?|?]; [by left|by right; left].
Qed.



(** * The whole run *)

Lemma export_objects_keeps client objects bucket lp d r d' t :
  export_objects client objects bucket lp d = (r, d', t) →
  keeps_but (segments (ledger_path lp)) d d'.
Proof.
  rewrite export_objects_run.
  destruct (select is_file_char objects) as [files|];
    [|intros ?; simplify_eq; apply keeps_but_refl].
  destruct (select is_slash objects) as [markers|];
    [|intros ?; simplify_eq; apply keeps_but_refl].
  destruct (create_directories markers lp d) as [[[[]|e] dc] tc] eqn:Hc.
  - destruct (create_directories_frame _ _ _ _ _ _ Hc) as (Hf & Hk & _).
    destruct (download_objects client files bucket lp dc) as [[[s|e] dd] td] eqn:Hd;
      intros ?; simplify_eq;
      (eapply keeps_but_trans; [by apply keeps_but_same|by eapply download_objects_keeps]).
  - destruct (create_directories_frame _ _ _ _ _ _ Hc) as (Hf & Hk & _).
    intros ?; simplify_eq. by apply keeps_but_same.
Qed.

Lemma init_script_run fuel client bucket lp d :
  init_script fuel client bucket lp d =
  match list_objects_in_bucket fuel client bucket d with
  | None => None
  | Some (Raise e, _, tl) =>
      Some (d, ((report_progress lp d).2 ++ tl) ++
               [if is_KeyboardInterrupt e then Log INFO msg_exiting
                else Log ERROR (msg_error_occurred e)])
  | Some (Ok objects, _, tl) =>
      match export_objects client objects bucket lp d with
      | (Ok _, d', t) => Some (d', (report_progress lp d).2 ++ tl ++ t)
      | (Raise e, d', t) =>
          Some (d', ((report_progress lp d).2 ++ tl ++ t) ++
                    [if is_KeyboardInterrupt e then Log INFO msg_exiting
                     else Log ERROR (msg_error_occurred e)])
      end
  end.
Proof.
  unfold init_script. rewrite init_script_try_run.
  destruct (list_objects_in_bucket fuel client bucket d) as [[[[objects|e] dl] tl]|]; [| |done].
  - destruct (export_objects client objects bucket lp d) as [[[s|e] d'] t]; [done|].
    by destruct (is_KeyboardInterrupt e).
  - by destruct (is_KeyboardInterrupt e).
Qed.



Lemma report_progress_quiet lp d :
  ∃ t, report_progress lp d = (Ok (), d, t) ∧
       requested_keys t = [] ∧
       Forall (λ ev, ∀ p, ev ≠ Sys (SysMakedirs p)) t.
Proof.
  unfold report_progress. rewrite bind_run, get_download_log_cases.
  unfold LOGGER_info, emit, mret, M_ret.
  destruct (fs_exists d (ledger_path lp)).
  - destruct (fs_read d (ledger_path lp)) as [c|e0].
    + destruct (decode_ledger c) as [s|e0]; simpl; destruct (bool_decide _);
        (eexists; split; [done|]; split; [done|]);
        by repeat (constructor; [by intros ?|]).
    + simpl. destruct (bool_decide _);
        (eexists; split; [done|]; split; [done|]);
        by repeat (constructor; [by intros ?|]).
  - simpl. destruct (bool_decide _);
      (eexists; split; [done|]; split; [done|]);
      by repeat (constructor; [by intros ?|]).
Qed.

(** X11. When the listing raises, [init_script] ends there: it logs the
    error with the exception, or the exit line for a [KeyboardInterrupt],
    and returns without raising. The disk is as it was, no directory was
    made and no download was requested. *)
Theorem listing_failure_ends_the_run (fuel : nat) (client : Client) (bucket lp : string)
    (d d1 : node) (e : exn) (tl : list event) :
  list_objects_in_bucket fuel client bucket d = Some (Raise e, d1, tl) →
  ∃ t,
    init_script fuel client bucket lp d = Some (d, t) ∧
    last t = Some (if is_KeyboardInterrupt e then Log INFO msg_exiting
                   else Log ERROR (msg_error_occurred e)) ∧
    requested_keys t = [] ∧
    Forall (λ ev, ∀ p, ev ≠ Sys (SysMakedirs p)) t.
Proof.
  intros Hl. rewrite init_script_run, Hl. eexists. split; [done|].
  split; [by rewrite last_snoc|].
  destruct (report_progress_quiet lp d) as (t0 & Hrp & Hr0 & Hm0). rewrite Hrp. simpl.
  split.
  - rewrite !requested_keys_app, Hr0, (list_objects_in_bucket_requests _ _ _ _ _ _ _ Hl).
    by destruct (is_KeyboardInterrupt e).
  - rewrite !Forall_app. split; [split|].
    + done.
    + revert Hl. unfold list_objects_in_bucket.
      assert (∀ fuel token acc t0 r d' t,
                list_pages fuel client bucket token acc t0 d = Some (r, d', t) →
                Forall (λ ev, ∀ p, ev ≠ Sys (SysMakedirs p)) t0 →
                Forall (λ ev, ∀ p, ev ≠ Sys (SysMakedirs p)) t) as Hp.
      { clear. induction fuel as [|fuel IH]; intros token acc t0 r d' t; [done|]. simpl.
        destruct (list_objects_v2 client bucket (sent_token token)) as [resp|e].
        - destruct (truthy_flag (IsTruncated resp)).
          + intros H H0. eapply IH; [exact H|].
            destruct (Contents resp); rewrite !Forall_app; repeat split; try done;
              by repeat (constructor; [by intros ?|]).
          + intros ? H0; simplify_eq.
            destruct (Contents resp); rewrite !Forall_app; repeat split; try done;
              by repeat (constructor; [by intros ?|]).
        - intros ? H0; simplify_eq. rewrite Forall_app. split; [done|].
          by repeat (constructor; [by intros ?|]). }
      destruct (list_pages fuel client bucket None [] [] d) as [[[[l|e0] dx] tx]|] eqn:E;
        [done| |done].
      intros ?; simplify_eq. by eapply Hp.
    + constructor; [|done]. by destruct (is_KeyboardInterrupt e); intros ?.
Qed.

Lemma listing_failure_ends_the_run_witness :
  ∃ t,
    init_script 5 unreachable_client "bk" "out" disk_with_a = Some (disk_with_a, t) ∧
    last t = Some (Log ERROR (msg_error_occurred (ClientError "503"))).
Proof.
  destruct (listing_failure_ends_the_run 5 unreachable_client "bk" "out" disk_with_a
              disk_with_a (ClientError "503")
              [Net (ReqList "bk" None)]) as (t & Hrun & Hlast & _).
  - reflexivity.
  - exists t. split; [exact Hrun|exact Hlast].
Defined.

(** * The object lister: what it logs *)

Lemma page_lines_app t1 t2 : page_lines (t1 ++ t2) = page_lines t1 ++ page_lines t2.
Proof. apply omap_app. Qed.

Lemma list_tokens_app t1 t2 : list_tokens (t1 ++ t2) = list_tokens t1 ++ list_tokens t2.
Proof. apply omap_app. Qed.

Lemma list_pages_log client bucket : ∀ fuel token acc t0 d objs d' t,
  list_pages fuel client bucket token acc t0 d = Some (Ok objs, d', t) →
  ∃ sizes tokens,
    page_lines t = page_lines t0 ++ running_totals (length acc) sizes ∧
    length objs = (length acc + sum_list sizes)%nat ∧
    list_tokens t = list_tokens t0 ++ sent_token token :: tokens.
Proof.
  induction fuel as [|fuel IH]; intros token acc t0 d objs d' t; [done|]. simpl.
  destruct (list_objects_v2 client bucket (sent_token token)) as [resp|e]; [|done].
  destruct (Contents resp) as [page|].
  - destruct (truthy_flag (IsTruncated resp)).
    + intros (sizes & tokens & Hp & Hl & Ht)%IH.
      exists (length page :: sizes), (sent_token (NextContinuationToken resp) :: tokens).
      rewrite Hp, Hl, Ht, !page_lines_app, !list_tokens_app, !length_app. simpl.
      rewrite <-?app_assoc, ?app_nil_r. simpl. split; [done|]. split; [lia|done].
    + intros ?; simplify_eq. exists [length page], [].
      rewrite !page_lines_app, !list_tokens_app, !length_app. simpl.
      rewrite ?app_nil_r. split; [done|]. split; [lia|done].
  - destruct (truthy_flag (IsTruncated resp)).
    + intros (sizes & tokens & Hp & Hl & Ht)%IH.
      exists sizes, (sent_token (NextContinuationToken resp) :: tokens).
      rewrite Hp, Hl, Ht, !page_lines_app, !list_tokens_app. simpl.
      rewrite <-?app_assoc, ?app_nil_r. done.
    + intros ?; simplify_eq. exists [], [].
      rewrite !page_lines_app, !list_tokens_app. simpl. rewrite ?app_nil_r.
      split; [done|]. split; [lia|done].
Qed.

(** X12. The log of a listing that returns agrees with what it returns.
    Every page with contents has one line, with the size of the page and
    the number of records fetched so far: the totals are the running sums
    of the sizes, and the sizes add up to the number of records returned.
    The first request carries no token, and the last line of the log gives
    the number of records returned and the bucket. *)
Theorem listing_log_adds_up (fuel : nat) (client : Client) (bucket : string)
    (d d' : node) (objects : list object_record) (t : list event) :
  list_objects_in_bucket fuel client bucket d = Some (Ok objects, d', t) →
  ∃ sizes tokens,
    page_lines t = running_totals 0 sizes ∧
    sum_list sizes = length objects ∧
    list_tokens t = None :: tokens ∧
    last t = Some (Log INFO (msg_fetched_total (length objects) bucket)).
Proof.
  unfold list_objects_in_bucket.
  destruct (list_pages fuel client bucket None [] [] d) as [[[[objs|e] d1] t1]|] eqn:Hp;
    [|done|done].
  intros ?; simplify_eq.
  destruct (list_pages_log _ _ _ _ _ _ _ _ _ _ Hp) as (sizes & tokens & Hl & Hn & Ht).
  exists sizes, tokens. rewrite page_lines_app, list_tokens_app, Hl, Ht, last_snoc. simpl.
  rewrite ?app_nil_r. split; [done|]. split; [by rewrite Hn|done].
Qed.

Lemma listing_log_adds_up_witness :
  ∃ t,
    list_objects_in_bucket 5 paged_client "bk" empty_dir
    = Some (Ok [record_of "a"; record_of "b"; record_of "c"], empty_dir, t) ∧
    page_lines t = [(2, 2); (1, 3)]%nat ∧
    list_tokens t = [None; Some "next"] ∧
    ∃ sizes tokens,
      page_lines t = running_totals 0 sizes ∧
      sum_list sizes = 3%nat ∧
      list_tokens t = None :: tokens.
Proof.
  eexists.
  match goal with |- ?E ∧ _ => assert E as H by (vm_compute; reflexivity) end.
  split; [exact H|]. split; [reflexivity|]. split; [reflexivity|].
  destruct (listing_log_adds_up _ _ _ _ _ _ _ H) as (sizes & tokens & Hp & Hs & Ht & _).
  exists sizes, tokens. split; [exact Hp|]. split; [exact Hs|exact Ht].
Defined.

(** * The counters and the log *)

Ltac observe_kind :=
  unfold classified;
  simpl; repeat change (list_omap _ _ ?f ?l) with (omap f l);
  rewrite ?omap_app; simpl;
  repeat (rewrite (omap_sys _ _) by (done || eauto using save_download_log_sys, cleanup_sys));
  simpl.

Lemma iteration_classified client bucket lp total_files index file fr fr' t :
  iteration client bucket lp total_files index file fr = (Ok (), fr', t) →
  ∃ c, classified t = [c] ∧ stats fr' = bump c (stats fr).
Proof.
  unfold iteration, on_failure. destruct fr as [d dl st]. cbv zeta. red_frame.
  set (k := Key file). set (path := lp +:+ "/" +:+ k).
  destruct (decide (AStr k ∈ dl)).
  { intros ?; simplify_eq. by exists c_skipped_logged. }
  destruct (fs_exists d path).
  { destruct (save_download_log lp _ d) as [[[[]|e] d'] ts] eqn:Hs; [|done].
    intros ?; simplify_eq. exists c_skipped_exists. by observe_kind. }
  destruct (fs_makedirs d _) as [d1|]; [|done].
  destruct (fs_write d1 path _) as [d2|].
  2:{ destruct (cleanup path d1) as [[rc dc] tc] eqn:Hc. intros ?; simplify_eq.
      exists c_failed. by observe_kind. }
  destruct (error _) as [e|].
  { destruct (is_Exception e); [|done].
    destruct (cleanup path _) as [[rc dc] tc] eqn:Hc. intros ?; simplify_eq.
    exists c_failed. by observe_kind. }
  destruct (save_download_log lp _ _) as [[[[]|e] d4] ts] eqn:Hs.
  - intros ?; simplify_eq. exists c_downloaded. by observe_kind.
  - destruct (cleanup path d4) as [[rc dc] tc] eqn:Hc. intros ?; simplify_eq.
    exists c_failed. by observe_kind.
Qed.

Lemma classified_app t1 t2 : classified (t1 ++ t2) = classified t1 ++ classified t2.
Proof. apply omap_app. Qed.

Lemma get_download_log_classified lp d r d' t :
  get_download_log lp d = (r, d', t) → classified t = [].
Proof.
  rewrite get_download_log_cases.
  destruct (fs_exists d (ledger_path lp)); [|by intros ?; simplify_eq].
  destruct (fs_read d (ledger_path lp)) as [c|e]; [|by intros ?; simplify_eq].
  destruct (decode_ledger c); by intros ?; simplify_eq.
Qed.

Lemma loop_classified client bucket lp total_files files : ∀ start fr fr' t,
  for_enumerate start files (download_one client bucket lp total_files) fr = (Ok (), fr', t) →
  stats fr' = foldl (λ s c, bump c s) (stats fr) (classified t) ∧
  length (classified t) = length files.
Proof.
  induction files as [|f files IH]; intros start fr fr' t H.
  - simpl in H. unfold mret, M_ret in H. by simplify_eq.
  - apply for_enumerate_cons_Ok in H as (fr1 & t1 & t2 & H1 & H2 & ->).
    rewrite download_one_iteration in H1.
    destruct (iteration_classified _ _ _ _ _ _ _ _ _ H1) as (c & Hc & Hst).
    destruct (IH _ _ _ _ H2) as [Hfold Hlen].
    rewrite classified_app, Hc. simpl. rewrite <-Hst. by rewrite Hlen.
Qed.

(** X13. The counters a run of [download_objects] returns are the ones
    its log shows: every record has one progress line, and going through
    the lines in order, incrementing for each line the counter it stands
    for ("already logged", "file exists", "Downloaded", "Failed"), gives
    the statistics returned. *)
Theorem counters_agree_with_log (client : Client) (files : list object_record)
    (bucket lp : string) (d d' : node) (s : Stats) (t : list event) :
  download_objects client files bucket lp d = (Ok s, d', t) →
  s = foldl (λ s c, bump c s) zero_stats (classified t) ∧
  length (classified t) = length files.
Proof.
  intros (fr' & t1 & t2 & Hg & Hloop & -> & _ & ->)%download_objects_Ok.
  rewrite classified_app, (get_download_log_classified _ _ _ _ _ Hg). simpl.
  apply (loop_classified _ _ _ _ _ _ _ _ _ Hloop).
Qed.

Lemma counters_agree_with_log_witness :
  ∃ s d' t,
    download_objects (bucket_client ["b"]) [record_of "a"; record_of "b"; record_of "c"; record_of "c"]
      "bk" "out" disk_with_a = (Ok s, d', t) ∧
    classified t = [c_skipped_exists; c_failed; c_downloaded; c_skipped_logged] ∧
    s = MkStats 1 1 1 1.
Proof.
  eexists _, _, _.
  match goal with |- ?E ∧ _ => assert E as H by (vm_compute; reflexivity) end.
  split; [exact H|]. split; [vm_compute; reflexivity|].
  rewrite (proj1 (counters_agree_with_log _ _ _ _ _ _ _ _ H)) at 1. reflexivity.
Defined.

(** * A file in the place of a directory marker *)

Lemma dir_at_exists d p :
  nonempty p = true → dir_at d (segments p) = true → fs_exists d p = true.
Proof.
  intros Hn Hd. unfold fs_exists, fs_lookup. rewrite Hn. unfold dir_at in Hd.
  by destruct (stat d (segments p)) as [[]|].
Qed.

Lemma segments_slash k : segments (k +:+ "/") = segments k.
Proof.
  unfold segments. change (k +:+ "/") with (k +:+ String "/" "").
  rewrite fields_app_slash, List.filter_app. simpl. by rewrite app_nil_r.
Qed.

Lemma is_marker_key_slash k : is_marker_key (k +:+ "/") = true.
Proof.
  unfold is_marker_key, last_char. rewrite list_ascii_app. simpl.
  by rewrite last_snoc.
Qed.

(** A download is requested only for the record of the iteration, and
    only when nothing is at its path. *)
Lemma iteration_requests client bucket lp total_files index file fr r fr' t k :
  iteration client bucket lp total_files index file fr = (r, fr', t) →
  k ∈ requested_keys t →
  k = Key file ∧ fs_exists (disk fr) (lp +:+ "/" +:+ k) = false.
Proof.
  unfold iteration, on_failure. destruct fr as [d dl st]. cbv zeta. red_frame.
  set (k0 := Key file). set (path := lp +:+ "/" +:+ k0).
  assert (∀ x : string, x ∈ @nil string → False) as Hnil
    by (intros x Hx; by apply elem_of_nil in Hx).
  destruct (decide (AStr k0 ∈ dl)).
  { intros ? Hk; simplify_eq. by apply Hnil in Hk. }
  destruct (fs_exists d path) eqn:Hex.
  { destruct (save_download_log lp _ d) as [[[[]|e] d'] ts] eqn:Hs;
      intros ? Hk; simplify_eq; revert Hk; observe; intros Hk; by apply Hnil in Hk. }
  destruct (fs_makedirs d _) as [d1|] eqn:Hmk.
  2:{ intros ? Hk; simplify_eq. by apply Hnil in Hk. }
  destruct (fs_write d1 path _) as [d2|] eqn:Hw.
  2:{ destruct (cleanup path d1) as [[rc dc] tc] eqn:Hc.
      intros ? Hk; simplify_eq; revert Hk; observe; intros Hk; by apply Hnil in Hk. }
  destruct (error _) as [e|] eqn:He.
  { destruct (is_Exception e).
    - destruct (cleanup path _) as [[rc dc] tc] eqn:Hc.
      intros ? Hk; simplify_eq; revert Hk; observe.
      by intros ->%list_elem_of_singleton.
    - intros ? Hk; simplify_eq. revert Hk. observe.
      by intros ->%list_elem_of_singleton. }
  destruct (save_download_log lp _ _) as [[[[]|e] d4] ts] eqn:Hs.
  - intros ? Hk; simplify_eq. revert Hk. observe. by intros ->%list_elem_of_singleton.
  - destruct (cleanup path d4) as [[rc dc] tc] eqn:Hc.
    intros ? Hk; simplify_eq; revert Hk; observe. by intros ->%list_elem_of_singleton.
Qed.

Lemma loop_skips_directories client bucket lp total_files files k :
  ∀ start fr r fr' t,
    dir_at (disk fr) (segments (lp +:+ "/" +:+ k)) = true →
    for_enumerate start files (download_one client bucket lp total_files) fr = (r, fr', t) →
    k ∉ requested_keys t.
Proof.
  induction files as [|f files IH]; intros start fr r fr' t Hdir H.
  - simpl in H. unfold mret, M_ret in H. simplify_eq. apply not_elem_of_nil.
  - rewrite for_enumerate_cons_run, download_one_iteration in H.
    assert (∀ r1 fr1 t1, iteration client bucket lp total_files start f fr = (r1, fr1, t1) →
              k ∉ requested_keys t1) as Hfirst.
    { intros r1 fr1 t1 Hit Hk.
      destruct (iteration_requests _ _ _ _ _ _ _ _ _ _ _ Hit Hk) as [_ Hex].
      by rewrite (dir_at_exists _ _ (nonempty_join lp k) Hdir) in Hex. }
    destruct (iteration _ _ _ _ _ f fr) as [[[[]|e] fr1] t1] eqn:Hit.
    + destruct (for_enumerate _ files _ fr1) as [[r2 fr2] t2] eqn:Hrest. simplify_eq.
      rewrite requested_keys_app. intros [Hk|Hk]%elem_of_app.
      * by eapply Hfirst.
      * destruct (iteration_keeps _ _ _ _ _ _ _ _ _ _ Hit) as [_ Hkept].
        by eapply (IH _ _ _ _ _ (Hkept _ Hdir) Hrest).
    + simplify_eq. by eapply Hfirst.
Qed.

(** X14. A file whose key is the key of a listed directory marker without
    its final slash is never downloaded: the marker's directory is made
    first, the file's path then exists, and the record is skipped or
    found logged. Whatever the outcome of the run, no download of that key
    is requested. *)
Theorem shadowed_file_is_never_requested (client : Client) (objects : list object_record)
    (bucket lp : string) (d d' : node) (r : result Stats) (t : list event)
    (o : object_record) (k : string) :
  export_objects client objects bucket lp d = (r, d', t) →
  o ∈ objects →
  Key o = k +:+ "/" →
  k ∉ requested_keys t.
Proof.
  rewrite export_objects_run. intros H Ho Hk.
  destruct (select is_file_char objects) as [files|];
    [|simplify_eq; apply not_elem_of_nil].
  destruct (select is_slash objects) as [markers|] eqn:Hm;
    [|simplify_eq; apply not_elem_of_nil].
  destruct (create_directories markers lp d) as [[[[]|e] dc] tc] eqn:Hc.
  2:{ simplify_eq. destruct (create_directories_frame _ _ _ _ _ _ Hc) as (_ & _ & Hr & _).
      change (k ∉ requested_keys tc). rewrite Hr. apply not_elem_of_nil. }
  destruct (create_directories_Ok _ _ _ _ _ Hc) as (_ & _ & Hrc & _ & _ & Hall).
  assert (dir_at dc (segments (lp +:+ "/" +:+ k)) = true) as Hdir.
  { destruct (select_Ok_inv _ _ _ Hm) as [_ ->].
    rewrite segments_join, <-(segments_slash k), <-Hk, <-segments_join. apply Hall.
    apply list_elem_of_In, List.filter_In. split; [by apply list_elem_of_In|].
    change (is_marker_key (Key o) = true). rewrite Hk. apply is_marker_key_slash. }
  assert (∀ r2 dd td, download_objects client files bucket lp dc = (r2, dd, td) →
            k ∉ requested_keys td) as Hdown.
  { intros r2 dd td. destruct (download_objects_run client files bucket lp dc) as (t0 & Hg & ->).
    destruct (get_download_log_quiet lp dc) as (t0' & Hg' & Hq & _).
    rewrite Hg in Hg'. simplify_eq. rewrite download_loop_run.
    destruct (for_enumerate 1 files _ _) as [[[[]|e] fr1] t1] eqn:Hloop.
    - intros ?; simplify_eq. rewrite requested_keys_app, Hq. simpl.
      by eapply (loop_skips_directories client bucket lp (length files) files k 1
                     (Frame dc (on_disk_ledger dc lp) zero_stats) _ _ _ Hdir Hloop).
    - destruct (is_KeyboardInterrupt e); intros ?; simplify_eq;
        rewrite ?requested_keys_app, Hq; simpl; rewrite ?app_nil_r;
        by eapply (loop_skips_directories client bucket lp (length files) files k 1
                     (Frame dc (on_disk_ledger dc lp) zero_stats) _ _ _ Hdir Hloop). }
  destruct (download_objects client files bucket lp dc) as [[[s|e] dd] td] eqn:Hd;
    simplify_eq.
  - destruct (summary_run s files d') as (ts & Hs & Hrs%no_io_requested). rewrite Hs. simpl.
    change (k ∉ requested_keys (tc ++ td ++ ts)).
    rewrite !requested_keys_app, Hrc, Hrs, app_nil_r. simpl. by eapply Hdown.
  - change (k ∉ requested_keys (tc ++ td)).
    rewrite !requested_keys_app, Hrc. simpl. by eapply Hdown.
Qed.

Lemma shadowed_file_is_never_requested_witness :
  ∃ s d' t,
    export_objects shadowing_client [record_of "a"; record_of "a/"; record_of "b"]
      "bk" "out" empty_dir = (Ok s, d', t) ∧
    s = MkStats 1 1 0 0 ∧
    requested_keys t = ["b"] ∧
    dir_at d' ["out"; "a"] = true ∧
    "a" ∉ requested_keys t.
Proof.
  eexists _, _, _.
  match goal with |- ?E ∧ _ => assert E as H by (vm_compute; reflexivity) end.
  split; [exact H|]. split; [reflexivity|]. split; [vm_compute; reflexivity|].
  split; [vm_compute; reflexivity|].
  apply (shadowed_file_is_never_requested _ _ _ _ _ _ _ _ (record_of "a/") "a" H);
    [by right; left|reflexivity].
Defined.

(** * A ledger that cannot be saved *)

Lemma loop_unsavable client bucket lp total_files files start fr fr' t :
  for_enumerate start files (download_one client bucket lp total_files) fr = (Ok (), fr', t) →
  can_save (disk fr) lp = false →
  downloaded (stats fr') = downloaded (stats fr) ∧
  skipped_exists (stats fr') = skipped_exists (stats fr) ∧
  files_same (disk fr) (disk fr') ∧
  downloaded_keys t = [] ∧
  skipped_exists_keys t = [].
Proof.
  revert files start fr fr' t.
  apply (loop_Ok_ind client bucket lp total_files (λ fr fr' t _,
    can_save (disk fr) lp = false →
    downloaded (stats fr') = downloaded (stats fr) ∧
    skipped_exists (stats fr') = skipped_exists (stats fr) ∧
    files_same (disk fr) (disk fr') ∧
    downloaded_keys t = [] ∧
    skipped_exists_keys t = [])).
  - intros fr _. split; [done|]. split; [done|]. split; [by intros q|done].
  - intros i f fs fr fr1 fr' t1 t2 Hstep IH Hcs.
    rewrite downloaded_keys_app, skipped_exists_keys_app.
    destruct Hstep as [(Hin & -> & ->) | [(c & Hc & H) | H]].
    + destruct (IH Hcs) as (Hd & Hs & Hf & Hdk & Hsk). simpl in *.
      split; [done|]. split; [done|]. split; [done|]. by rewrite Hdk, Hsk.
    + destruct H as (_ & _ & _ & _ & _ & Hcan & _). congruence.
    + destruct H as (_ & Hst & Hfs & _ & Hsk1 & Hdk1 & _ & _ & Hpersist).
      destruct (IH (Hpersist Hcs)) as (Hd & Hs & Hf & Hdk & Hsk).
      rewrite Hst in Hd, Hs. simpl in Hd, Hs.
      split; [done|]. split; [done|]. split; [|by rewrite Hdk1, Hsk1, Hdk, Hsk].
      intros q. by rewrite Hf, Hfs.
Qed.


